(** * snapshot-manager: rotation, republication and run coordination

    A shallow embedding of [src/snapshot_manager/snapshot_manager.py].

    The program is a sequence of external commands ([subprocess.run]) and
    HTTP notifications ([requests.get]) whose results decide what happens
    next.  It is embedded as a state-and-exception monad over an abstract
    world: the world answers every command with an exit status (or with an
    exception), and the monad records the commands issued, in order,
    together with the answers they got.  Python's [int] is [Z], [str] is
    [string], a [list] is a [list], [Optional] is [option]. *)

From stdpp Require Import base gmap strings list pretty.
From Stdlib Require Import ZArith Lia.

Set Default Proof Using "Type".
Set Warnings "-clear-no-such-hyp".

(** ** Data model (classes [Mount], [App], [Configuration]) *)

Record Mount := {
  origin : string;
  destination : string;
  children : list string
}.

Record App := {
  name : string;
  containers : list string;
  mounts : list Mount
}.

Record Configuration := {
  retention : Z;
  backup_containers : list string;
  monitor_url : option string;
  apps : list App
}.

(** ** External commands

    One constructor per argument vector the program passes to
    [subprocess.run]; [argv] gives the vector itself. *)

Inductive Cmd :=
| ZfsList (snapshot : string)
| ZfsDestroy (snapshot : string)
| ZfsRename (old new : string)
| ZfsSnapshot (snapshot : string)
| DockerStop (targets : list string)
| DockerStart (targets : list string)
| Mountpoint (path : string)
| Umount (path : string)
| MkdirP (path : string)
| MountZfs (snapshot path : string).

Definition argv (c : Cmd) : list string :=
  match c with
  | ZfsList n => ["zfs"; "list"; "-r"; "-t"; "snapshot"; n]
  | ZfsDestroy n => ["zfs"; "destroy"; "-r"; n]
  | ZfsRename a b => ["zfs"; "rename"; "-r"; a; b]
  | ZfsSnapshot n => ["zfs"; "snapshot"; "-r"; n]
  | DockerStop cs => ["docker"; "stop"] ++ cs
  | DockerStart cs => ["docker"; "start"] ++ cs
  | Mountpoint p => ["mountpoint"; "-q"; p]
  | Umount p => ["umount"; p]
  | MkdirP p => ["mkdir"; "-p"; p]
  | MountZfs n p => ["mount"; "-t"; "zfs"; n; p]
  end.

(** Exceptions.  [RuntimeError] is what the program raises itself;
    [KeyError] comes from subscripting a parsed table; [PyException]
    stands for any other subclass of [Exception], named by its class (a
    missing executable, an undecodable file, a [TypeError]);
    [KeyboardInterrupt] is not an [Exception]. *)

Inductive exn :=
| RuntimeError (msg : string)
| KeyError (key : string)
| PyException (cls : string)
| KeyboardInterrupt.

Definition is_Exception (e : exn) : bool :=
  match e with
  | KeyboardInterrupt => false
  | _ => true
  end.

(** What [subprocess.run] gives back: a completed process with its
    [returncode], or an exception. *)

Inductive Outcome :=
| Exit (returncode : Z)
| Throw (e : exn).

(** What [requests.get] followed by [response.json()] gives back: an
    exception from the transport, a body that is not JSON, a JSON value
    that is not an object (an array, a string, a number, [true], [false]
    or [null]), or a JSON object, without an [ok] member or with one,
    given by its truth value. *)

Inductive Reply :=
| GetRaised (e : exn)
| NotJson
| NotObject
| Json (ok : option bool).

Inductive Event :=
| Ran (c : Cmd) (o : Outcome)
| Requested (url status msg : string) (r : Reply).

Inductive Level := DEBUG | INFO | WARNING | ERROR | CRITICAL.

(** The parsed configuration file, as [tomllib.load] returns it: tables
    are dictionaries, so every member may be absent. *)

Record TomlMount := {
  t_origin : option string;
  t_destination : option string;
  t_children : option (list string)
}.

Record TomlApp := {
  t_name : option string;
  t_containers : option (list string);
  t_mounts : option (list TomlMount)
}.

Record TomlConfig := {
  t_retention : option Z;
  t_backup_containers : option (list string);
  t_monitor_url : option string
}.

Record Toml := {
  t_config : option TomlConfig;
  t_apps : option (list TomlApp)
}.

Inductive FileOutcome :=
| NotAFile
| Undecodable
| Parsed (t : Toml).

(** The parsed command line ([argparse.Namespace]). *)

Module Args.
Record t := {
  config : string;
  retention : option Z;
  backup_containers : option (list string);
  monitor_url : option string;
  verbosity : Z
}.
End Args.

Inductive Result (A : Type) :=
| Ok (a : A)
| Raise (e : exn).
Arguments Ok {A} a.
Arguments Raise {A} e.

Definition dq : string := String (Ascii.ascii_of_nat 34) EmptyString.

(** Python's [", ".join(l)]. *)
Fixpoint join (sep : string) (l : list string) : string :=
  match l with
  | [] => ""
  | [x] => x
  | x :: l' => x +:+ sep +:+ join sep l'
  end.

(** Python's [range(start, stop, -1)]. *)
Definition range_down (start stop : Z) : list Z :=
  map (λ k : nat, (start - Z.of_nat k)%Z) (seq 0 (Z.to_nat (start - stop))).

(** ** The program *)

Section Program.
Context {W : Type}.

(** The environment: how the world answers a command, a notification
    request and the loading of a configuration file. *)
Variable exec : Cmd → W → Outcome * W.
Variable http_get : string → string → string → W → Reply * W.
Variable load : string → W → FileOutcome.

Record State := {
  world : W;
  trace : list Event;
  logs : list (Level * string)
}.

Definition M (A : Type) : Type := State → Result A * State.

#[export] Instance M_ret : MRet M := λ A a s, (Ok a, s).
#[export] Instance M_bind : MBind M := λ A B k m s,
  match m s with
  | (Ok a, s') => k a s'
  | (Raise e, s') => (Raise e, s')
  end.

Definition raise {A} (e : exn) : M A := λ s, (Raise e, s).

Definition try_except {A} (m : M A) (handler : exn → M A) : M A := λ s,
  match m s with
  | (Ok a, s') => (Ok a, s')
  | (Raise e, s') => handler e s'
  end.

Fixpoint for_each {X} (l : list X) (body : X → M unit) : M unit :=
  match l with
  | [] => mret tt
  | x :: l' => body x;; for_each l' body
  end.

Definition logging (lvl : Level) (msg : string) : M unit := λ s,
  (Ok tt, {| world := world s; trace := trace s; logs := logs s ++ [(lvl, msg)] |}).

(** [subprocess.run(argv c).returncode] *)
Definition run (c : Cmd) : M Z := λ s,
  let '(o, w) := exec c (world s) in
  let s' := {| world := w; trace := trace s ++ [Ran c o]; logs := logs s |} in
  match o with
  | Exit rc => (Ok rc, s')
  | Throw e => (Raise e, s')
  end.

Definition remove_mount_last_snapshot (mount : Mount) (app_name : string) (retention : Z) : M unit :=
  rc ← run (ZfsList (origin mount +:+ "@backup-" +:+ pretty retention));
  if (rc =? 0)%Z then
    logging DEBUG ("Removing previous " +:+ app_name +:+ " " +:+ origin mount
                   +:+ " snapshot with age " +:+ pretty retention);;
    rc ← run (ZfsDestroy (origin mount +:+ "@backup-" +:+ pretty retention));
    if negb (rc =? 0)%Z then
      logging CRITICAL ("Failed to destroy " +:+ app_name +:+ " " +:+ origin mount
                        +:+ " snapshot with age " +:+ pretty retention);;
      raise (RuntimeError ("Failed to destroy " +:+ app_name +:+ " " +:+ origin mount
                           +:+ " snapshot with age " +:+ pretty retention))
    else mret tt
  else mret tt.

Definition rename_mount_snapshots (mount : Mount) (app_name : string) (retention : Z) : M unit :=
  for_each (range_down (retention - 1) 0) (λ i,
    rc ← run (ZfsList (origin mount +:+ "@backup-" +:+ pretty i));
    if (rc =? 0)%Z then
      logging DEBUG ("Renaming previous " +:+ app_name +:+ " " +:+ origin mount
                     +:+ " snapshot with age " +:+ pretty i);;
      rc ← run (ZfsRename (origin mount +:+ "@backup-" +:+ pretty i)
                          (origin mount +:+ "@backup-" +:+ pretty (i + 1)%Z));
      if negb (rc =? 0)%Z then
        logging CRITICAL ("Failed to rename " +:+ app_name +:+ " " +:+ origin mount
                          +:+ " snapshot with age " +:+ pretty i);;
        raise (RuntimeError ("Failed to rename " +:+ app_name +:+ " " +:+ origin mount
                             +:+ " snapshot with age " +:+ pretty i))
      else mret tt
    else mret tt).

Definition rename_mount_latest_snapshot (mount : Mount) (app_name : string) : M unit :=
  rc ← run (ZfsList (origin mount +:+ "@backup"));
  if (rc =? 0)%Z then
    logging DEBUG ("Renaming previous " +:+ app_name +:+ " " +:+ origin mount +:+ " snapshot");;
    rc ← run (ZfsRename (origin mount +:+ "@backup")
                        (origin mount +:+ "@backup-" +:+ pretty 1%Z));
    if negb (rc =? 0)%Z then
      logging CRITICAL ("Failed to rename " +:+ app_name +:+ " " +:+ origin mount +:+ " snapshot");;
      raise (RuntimeError ("Failed to rename " +:+ app_name +:+ " " +:+ origin mount +:+ " snapshot"))
    else mret tt
  else mret tt.

Definition remove_last_snapshot (app : App) (retention : Z) : M unit :=
  logging INFO ("Removing snapshot past retention for app " +:+ name app);;
  for_each (mounts app) (λ mount,
    remove_mount_last_snapshot mount (name app) retention).

Definition archive_snapshots (app : App) (retention : Z) : M unit :=
  for_each (mounts app) (λ mount,
    remove_mount_last_snapshot mount (name app) retention;;
    rename_mount_snapshots mount (name app) retention;;
    rename_mount_latest_snapshot mount (name app)).

Definition truthy {A} (l : list A) : bool :=
  match l with
  | [] => false
  | _ :: _ => true
  end.

Definition stop_containers (app : App) : M unit :=
  logging DEBUG ("Stopping " +:+ name app +:+ " container(s)");;
  rc ← run (DockerStop (rev (containers app)));
  if negb (rc =? 0)%Z then
    logging CRITICAL ("Failed to stop " +:+ name app +:+ " container(s)");;
    raise (RuntimeError ("Failed to stop " +:+ name app +:+ " container(s)"))
  else mret tt.

Definition snapshot_mounts (app : App) : M unit :=
  for_each (mounts app) (λ mount,
    logging DEBUG ("Performing " +:+ name app +:+ " " +:+ origin mount +:+ " snapshot");;
    rc ← run (ZfsSnapshot (origin mount +:+ "@backup"));
    if negb (rc =? 0)%Z then
      logging CRITICAL ("Failed to create " +:+ name app +:+ " " +:+ origin mount +:+ " snapshot");;
      raise (RuntimeError ("Failed to create " +:+ name app +:+ " " +:+ origin mount +:+ " snapshot"))
    else mret tt).

Definition start_containers (app : App) : M unit :=
  logging DEBUG ("Starting " +:+ name app +:+ " container(s)");;
  rc ← run (DockerStart (containers app));
  if negb (rc =? 0)%Z then
    logging CRITICAL ("Failed to start " +:+ name app +:+ " container(s)");;
    raise (RuntimeError ("Failed to start " +:+ name app +:+ " container(s)"))
  else mret tt.

Definition do_snapshot (app : App) (retention : Z) : M unit :=
  logging INFO ("Snapshotting app " +:+ name app);;
  archive_snapshots app retention;;
  (if truthy (containers app) then stop_containers app else mret tt);;
  snapshot_mounts app;;
  (if truthy (containers app) then start_containers app else mret tt).

Definition unmount_mount (mount : Mount) (app_name : string) : M unit :=
  rc ← run (Mountpoint (destination mount));
  if (rc =? 0)%Z then
    for_each (children mount) (λ child,
      rc ← run (Mountpoint (destination mount +:+ "/" +:+ child));
      if (rc =? 0)%Z then
        logging DEBUG ("Unmounting previous " +:+ app_name +:+ " "
                       +:+ destination mount +:+ "/" +:+ child +:+ " snapshot");;
        rc ← run (Umount (destination mount +:+ "/" +:+ child));
        if negb (rc =? 0)%Z then
          logging CRITICAL ("Failed to unmount " +:+ app_name +:+ " "
                            +:+ destination mount +:+ "/" +:+ child +:+ " snapshot");;
          raise (RuntimeError ("Failed to unmount " +:+ app_name +:+ " "
                               +:+ destination mount +:+ "/" +:+ child +:+ " snapshot"))
        else mret tt
      else mret tt);;
    logging DEBUG ("Unmounting previous " +:+ app_name +:+ " " +:+ destination mount +:+ " snapshot");;
    rc ← run (Umount (destination mount));
    if negb (rc =? 0)%Z then
      logging CRITICAL ("Failed to unmount " +:+ app_name +:+ " " +:+ destination mount +:+ " snapshot");;
      raise (RuntimeError ("Failed to unmount " +:+ app_name +:+ " " +:+ destination mount +:+ " snapshot"))
    else mret tt
  else mret tt.

Definition mount_mount (mount : Mount) (app_name : string) : M unit :=
  rc ← run (MkdirP (destination mount));
  (if negb (rc =? 0)%Z then
    logging CRITICAL ("Failed to create " +:+ app_name +:+ " " +:+ destination mount
                      +:+ " top-level directory");;
    raise (RuntimeError ("Failed to create " +:+ app_name +:+ " " +:+ destination mount
                         +:+ " top-level directory"))
  else mret tt);;
  logging DEBUG ("Mounting " +:+ app_name +:+ " " +:+ destination mount +:+ " snapshot");;
  rc ← run (MountZfs (origin mount +:+ "@backup") (destination mount));
  (if negb (rc =? 0)%Z then
    logging CRITICAL ("Failed to mount " +:+ app_name +:+ " snapshot " +:+ origin mount
                      +:+ "@backup at " +:+ destination mount);;
    raise (RuntimeError ("Failed to mount " +:+ app_name +:+ " snapshot " +:+ origin mount
                         +:+ "@backup at " +:+ destination mount))
  else mret tt);;
  for_each (children mount) (λ child,
    logging DEBUG ("Mounting " +:+ app_name +:+ " " +:+ destination mount +:+ "/" +:+ child
                   +:+ " snapshot");;
    rc ← run (MountZfs (origin mount +:+ "/" +:+ child +:+ "@backup")
                       (destination mount +:+ "/" +:+ child));
    if negb (rc =? 0)%Z then
      logging CRITICAL ("Failed to mount " +:+ app_name +:+ " snapshot " +:+ origin mount
                        +:+ "/" +:+ child +:+ "@backup at " +:+ destination mount +:+ "/" +:+ child);;
      raise (RuntimeError ("Failed to mount " +:+ app_name +:+ " snapshot " +:+ origin mount
                           +:+ "/" +:+ child +:+ "@backup at " +:+ destination mount +:+ "/" +:+ child))
    else mret tt).

Definition do_mount (app : App) : M unit :=
  logging INFO ("Mounting snapshot for app " +:+ name app);;
  for_each (mounts app) (λ mount,
    unmount_mount mount (name app);;
    mount_mount mount (name app)).

Definition stop_backup_containers (backup_containers : list string) : M unit :=
  logging INFO "Stopping backup container(s)";;
  rc ← run (DockerStop (rev backup_containers));
  if negb (rc =? 0)%Z then
    logging CRITICAL "Failed to stop backup container(s)";;
    raise (RuntimeError "Failed to stop backup container(s)")
  else mret tt.

Definition start_backup_containers (backup_containers : list string) : M unit :=
  logging INFO "Starting backup container(s)";;
  rc ← run (DockerStart backup_containers);
  if negb (rc =? 0)%Z then
    logging CRITICAL "Failed to start backup container(s)";;
    raise (RuntimeError "Failed to start backup container(s)")
  else mret tt.

(** [requests.get(monitor_url, params=..., timeout=20)] followed by
    [response.json()]. *)
Definition request (url status msg : string) : M Reply := λ s,
  let '(r, w) := http_get url status msg (world s) in
  (Ok r, {| world := w; trace := trace s ++ [Requested url status msg r]; logs := logs s |}).

Definition str_exn (e : exn) : string :=
  match e with
  | RuntimeError msg => msg
  | KeyError key => "'" +:+ key +:+ "'"
  | PyException cls => cls
  | KeyboardInterrupt => ""
  end.

(** The texts of the response that two of the messages interpolate are
    not modelled; the messages end where they would start. *)
Definition send_notification (monitor_url status message : string) : M unit :=
  logging DEBUG ("Sending notification with status " +:+ dq +:+ status +:+ dq
                 +:+ " and message " +:+ dq +:+ message +:+ dq);;
  r ← request monitor_url status message;
  match r with
  | GetRaised e =>
      if is_Exception e then
        logging ERROR ("Failed to send notification with status " +:+ dq +:+ status +:+ dq
                       +:+ " and message " +:+ dq +:+ message +:+ dq
                       +:+ ", exception " +:+ dq +:+ str_exn e +:+ dq)
      else raise e
  | NotJson =>
      logging ERROR ("Failed to send notification with status " +:+ dq +:+ status +:+ dq
                     +:+ " and message " +:+ dq +:+ message +:+ dq
                     +:+ ", could not destructure response ")
  | NotObject => raise (PyException "TypeError")
  | Json None => raise (KeyError "ok")
  | Json (Some ok) =>
      if negb ok then
        logging ERROR ("Failed to send notification with status " +:+ dq +:+ status +:+ dq
                       +:+ " and message " +:+ dq +:+ message +:+ dq
                       +:+ ", received response ")
      else mret tt
  end.

Definition snapshot_manager (retention : Z) (backup_containers : list string)
    (monitor_url : option string) (apps : list App) : M unit :=
  logging INFO "Start backup snapshot";;
  match monitor_url with
  | Some url => send_notification url "up" "start"
  | None => mret tt
  end;;
  for_each apps (λ app, do_snapshot app retention);;
  (if truthy backup_containers then stop_backup_containers backup_containers else mret tt);;
  for_each apps (λ app, do_mount app);;
  (if truthy backup_containers then start_backup_containers backup_containers else mret tt);;
  for_each apps (λ app, remove_last_snapshot app retention);;
  match monitor_url with
  | Some url => send_notification url "up" "finish"
  | None => mret tt
  end;;
  logging INFO "Finished backup snapshot".

Definition DEFAULT_RETENTION : Z := 14.

(** [d[key]] on a table: [KeyError] when the member is absent. *)
Definition subscript {A} (key : string) (member : option A) : M A :=
  match member with
  | Some a => mret a
  | None => raise (KeyError key)
  end.

(** A loop that appends one element per iteration to a fresh list. *)
Fixpoint collect {X Y} (l : list X) (body : X → M Y) : M (list Y) :=
  match l with
  | [] => mret []
  | x :: l' => y ← body x; ys ← collect l' body; mret (y :: ys)
  end.

Definition read_config (config_path : string) (input_retention : option Z)
    (input_backup_containers : option (list string))
    (input_monitor_url : option string) : M Configuration :=
  logging INFO ("Reading configuration file " +:+ dq +:+ config_path +:+ dq);;
  w ← (λ s, (Ok (world s), s));
  match load config_path w with
  | NotAFile =>
      logging CRITICAL ("Configuration file " +:+ dq +:+ config_path +:+ dq +:+ " does not exist");;
      raise (RuntimeError ("Configuration file " +:+ dq +:+ config_path +:+ dq +:+ " does not exist"))
  | Undecodable => raise (PyException "TOMLDecodeError")
  | Parsed configuration =>
      table ← subscript "config" (t_config configuration);
      let config_retention := t_retention table in
      let retention :=
        match input_retention with
        | Some r => r
        | None => match config_retention with
                  | Some r => r
                  | None => DEFAULT_RETENTION
                  end
        end in
      logging DEBUG ("Using retention: " +:+ pretty retention);;
      let config_backup_containers := t_backup_containers table in
      let backup_containers :=
        match input_backup_containers with
        | Some l => l
        | None => match config_backup_containers with
                  | Some l => l
                  | None => []
                  end
        end in
      logging DEBUG ("Using backup containers: " +:+ dq +:+ join ", " backup_containers +:+ dq);;
      let monitor_url :=
        match input_monitor_url with
        | Some u => Some u
        | None => t_monitor_url table
        end in
      logging DEBUG ("Using monitor url: " +:+
                     match monitor_url with
                     | Some u => dq +:+ u +:+ dq
                     | None => "no monitor"
                     end);;
      apps ← collect (default [] (t_apps configuration)) (λ app,
        name ← subscript "name" (t_name app);
        containers ← subscript "containers" (t_containers app);
        mounts ← collect (default [] (t_mounts app)) (λ mount,
          origin ← subscript "origin" (t_origin mount);
          destination ← subscript "destination" (t_destination mount);
          let children := default [] (t_children mount) in
          mret (Build_Mount origin destination children));
        mret (Build_App name containers mounts));
      logging DEBUG ("Using apps: " +:+ dq +:+ join ", " (map name apps) +:+ dq);;
      mret (Build_Configuration retention backup_containers monitor_url apps)
  end.

Definition snapshot_manager_main (args : Args.t) : M unit :=
  config ← read_config (Args.config args) None None None;
  snapshot_manager (retention config) (backup_containers config)
                   (monitor_url config) (apps config).

(** [main] after [parser.parse_args]: the verbosity switch, then the
    run under the two handlers.  The level given to
    [logging.basicConfig] only filters what is displayed; [logs] keeps
    every call. *)
Definition main (args : Args.t) : M unit :=
  log_level ← (if (Args.verbosity args =? 0)%Z then mret WARNING
               else if (Args.verbosity args =? 1)%Z then mret INFO
               else if (Args.verbosity args =? 2)%Z then mret DEBUG
               else raise (RuntimeError ("Unsupported log level " +:+ pretty (Args.verbosity args)
                                         +:+ ". 0 for WARNING, 1 for INFO, 2 for DEBUG")));
  try_except (snapshot_manager_main args) (λ e,
    match e with
    | KeyboardInterrupt =>
        logging INFO "Keyboard interrupt received";;
        match Args.monitor_url args with
        | Some url => send_notification url "down" "interrupted"
        | None => mret tt
        end
    | _ =>
        logging ERROR "Unhandled exception";;
        match Args.monitor_url args with
        | Some url => send_notification url "down" "exception"
        | None => mret tt
        end;;
        raise e
    end).

(** The part of [snapshot_manager] that runs before the containers of
    [app] are stopped, when [app] comes after the apps [earlier]: the
    start notification, the whole of [do_snapshot] for the earlier apps,
    and [do_snapshot] for [app] up to and including its archive. *)
Definition until_stop (retention : Z) (monitor_url : option string)
    (earlier : list App) (app : App) : M unit :=
  logging INFO "Start backup snapshot";;
  match monitor_url with
  | Some url => send_notification url "up" "start"
  | None => mret tt
  end;;
  for_each earlier (λ app, do_snapshot app retention);;
  logging INFO ("Snapshotting app " +:+ name app);;
  archive_snapshots app retention.

End Program.

Arguments State W : clear implicits.
Arguments M W A : clear implicits.

(** ** Two worlds

    A scripted world answers every command by a fixed policy and has no
    state; it serves to replay failure scenarios. *)

Definition scripted (policy : Cmd → Outcome) (c : Cmd) (w : unit) : Outcome * unit :=
  (policy c, w).

Definition silent (url status msg : string) (w : unit) : Reply * unit :=
  (Json (Some true), w).

(** The snapshot store: the set of snapshot names that exist, as the
    snapshot tool keeps it for the named volumes themselves (the
    descendant volumes that [-r] also covers carry the same suffixes and
    are not tracked separately).  [zfs list] succeeds exactly on an
    existing snapshot, [destroy] needs its target to exist, [rename] needs
    its source to exist and its new name to be free, [snapshot] needs the
    name to be free.  Container and mount commands succeed and leave the
    store alone.  [seen] records the store after every command. *)

Record Store := {
  snaps : gset string;
  seen : list (gset string)
}.

Definition visit (w : Store) (X : gset string) : Store :=
  {| snaps := X; seen := seen w ++ [X] |}.

Definition zfs (c : Cmd) (w : Store) : Outcome * Store :=
  match c with
  | ZfsList n =>
      (Exit (if bool_decide (n ∈ snaps w) then 0 else 1), visit w (snaps w))
  | ZfsDestroy n =>
      if bool_decide (n ∈ snaps w) then (Exit 0, visit w (snaps w ∖ {[n]}))
      else (Exit 1, visit w (snaps w))
  | ZfsRename a b =>
      if bool_decide (a ∈ snaps w ∧ b ∉ snaps w)
      then (Exit 0, visit w (snaps w ∖ {[a]} ∪ {[b]}))
      else (Exit 1, visit w (snaps w))
  | ZfsSnapshot n =>
      if bool_decide (n ∉ snaps w) then (Exit 0, visit w (snaps w ∪ {[n]}))
      else (Exit 1, visit w (snaps w))
  | _ => (Exit 0, visit w (snaps w))
  end.

Definition no_monitor (url status msg : string) (w : Store) : Reply * Store :=
  (Json (Some true), w).

Definition start {W} (w : W) : State W := {| world := w; trace := []; logs := [] |}.

(** ** Scenarios

    The app of the specification's end-to-end scenario, the same app with
    one container, a host on which nothing exists or is mounted yet, the
    same host with a container runtime whose stop fails, and a
    configuration file that declares retention 2, a monitor and the app
    with its container. *)

Definition blog_mount : Mount :=
  {| origin := "tank/blog"; destination := "/mnt/blog"; children := [] |}.

Definition blog : App :=
  {| name := "blog"; containers := []; mounts := [blog_mount] |}.

Definition web_blog : App :=
  {| name := "blog"; containers := ["web"]; mounts := [blog_mount] |}.

Definition fresh_host (c : Cmd) : Outcome :=
  match c with
  | ZfsList _ | Mountpoint _ => Exit 1
  | _ => Exit 0
  end.

Definition stop_fails (c : Cmd) : Outcome :=
  match c with
  | ZfsList _ | Mountpoint _ | DockerStop _ => Exit 1
  | _ => Exit 0
  end.

Definition blog_toml : Toml :=
  {| t_config := Some {| t_retention := Some 2%Z;
                         t_backup_containers := None;
                         t_monitor_url := Some "http://kuma/push" |};
     t_apps := Some [ {| t_name := Some "blog";
                         t_containers := Some ["web"];
                         t_mounts := Some [ {| t_origin := Some "tank/blog";
                                               t_destination := Some "/mnt/blog";
                                               t_children := None |} ] |} ] |}.

Definition blog_file (path : string) (w : unit) : FileOutcome :=
  if String.eqb path "config.toml" then Parsed blog_toml else NotAFile.

(** [snapshot-manager -r 3]: the retention given on the command line. *)
Definition args_retention_3 : Args.t :=
  {| Args.config := "config.toml"; Args.retention := Some 3%Z;
     Args.backup_containers := None; Args.monitor_url := None; Args.verbosity := 0 |}.

(** [snapshot-manager]: nothing given on the command line. *)
Definition args_plain : Args.t :=
  {| Args.config := "config.toml"; Args.retention := None;
     Args.backup_containers := None; Args.monitor_url := None; Args.verbosity := 0 |}.

(** A runtime interrupted while it stops containers, and a command line
    with an unsupported verbosity. *)
Definition interrupted_at_stop (c : Cmd) : Outcome :=
  match c with
  | ZfsList _ | Mountpoint _ => Exit 1
  | DockerStop _ => Throw KeyboardInterrupt
  | _ => Exit 0
  end.

Definition args_vvv : Args.t :=
  {| Args.config := "config.toml"; Args.retention := None;
     Args.backup_containers := None; Args.monitor_url := None; Args.verbosity := 3 |}.

(** A host on which taking a snapshot fails. *)
Definition snapshot_fails (c : Cmd) : Outcome :=
  match c with
  | ZfsList _ | Mountpoint _ | ZfsSnapshot _ => Exit 1
  | _ => Exit 0
  end.

(** ** Plans

    A plan is the program's behaviour written as data, the way the
    specification words it: a command that must succeed, a block entered
    only when a probe answers 0 and skipped otherwise, or a notification.
    [follows plan r t] says that the events [t] and the result [r] are a
    run of the plan: commands in plan order, the first failing command
    last, nothing after it. *)

#[warnings="-register-all"]
Inductive Step :=
| Must (c : Cmd)
| When (probe : Cmd) (body : list Step)
| Notify (url status msg : string).

(** The exception a reply makes [send_notification] raise, if any. *)
Definition reply_raises (r : Reply) : option exn :=
  match r with
  | GetRaised e => if is_Exception e then None else Some e
  | NotJson => None
  | NotObject => Some (PyException "TypeError")
  | Json None => Some (KeyError "ok")
  | Json (Some _) => None
  end.

Inductive follows : list Step → Result unit → list Event → Prop :=
| follows_nil :
    follows [] (Ok tt) []
| follows_must c rest r t :
    follows rest r t →
    follows (Must c :: rest) r (Ran c (Exit 0) :: t)
| follows_must_nonzero c rest rc msg :
    rc ≠ 0%Z →
    follows (Must c :: rest) (Raise (RuntimeError msg)) [Ran c (Exit rc)]
| follows_must_throw c rest e :
    follows (Must c :: rest) (Raise e) [Ran c (Throw e)]
| follows_when_skip probe body rest rc r t :
    rc ≠ 0%Z →
    follows rest r t →
    follows (When probe body :: rest) r (Ran probe (Exit rc) :: t)
| follows_when_enter probe body rest r t :
    follows (body ++ rest) r t →
    follows (When probe body :: rest) r (Ran probe (Exit 0) :: t)
| follows_when_throw probe body rest e :
    follows (When probe body :: rest) (Raise e) [Ran probe (Throw e)]
| follows_notify url status msg rest reply r t :
    reply_raises reply = None →
    follows rest r t →
    follows (Notify url status msg :: rest) r (Requested url status msg reply :: t)
| follows_notify_raise url status msg rest reply e :
    reply_raises reply = Some e →
    follows (Notify url status msg :: rest) (Raise e) [Requested url status msg reply].

(** Snapshot identity: [origin@backup] and [origin@backup-N]. *)
Definition backup (origin : string) : string := origin +:+ "@backup".
Definition backup_n (origin : string) (n : Z) : string :=
  origin +:+ "@backup-" +:+ pretty n.

(** [n, n-1, ..., 1] *)
Fixpoint countdown (n : nat) : list Z :=
  match n with
  | O => []
  | S k => Z.of_nat (S k) :: countdown k
  end.

Definition destroy_last (m : Mount) (R : Z) : Step :=
  When (ZfsList (backup_n (origin m) R)) [Must (ZfsDestroy (backup_n (origin m) R))].

Definition shift (m : Mount) (i : Z) : Step :=
  When (ZfsList (backup_n (origin m) i))
       [Must (ZfsRename (backup_n (origin m) i) (backup_n (origin m) (i + 1)))].

Definition shift_latest (m : Mount) : Step :=
  When (ZfsList (backup (origin m)))
       [Must (ZfsRename (backup (origin m)) (backup_n (origin m) 1))].

(** 4.1 archive: destroy [backup-R] if present; shift [backup-i] for
    [i] from [R-1] down to [1]; shift [backup]. *)
Definition archive_plan (m : Mount) (R : Z) : list Step :=
  [destroy_last m R] ++ map (shift m) (countdown (Z.to_nat (R - 1))) ++ [shift_latest m].

(** 4.1 prune *)
Definition prune_plan (m : Mount) (R : Z) : list Step := [destroy_last m R].

(** 4.4 republish: when the destination is a mount point, unmount every
    mounted child and then the destination; then make the directory,
    mount the newest snapshot and every child's. *)
Definition unmount_plan (m : Mount) : list Step :=
  [When (Mountpoint (destination m))
        (map (λ child, When (Mountpoint (destination m +:+ "/" +:+ child))
                            [Must (Umount (destination m +:+ "/" +:+ child))])
             (children m)
         ++ [Must (Umount (destination m))])].

Definition mount_plan (m : Mount) : list Step :=
  [Must (MkdirP (destination m));
   Must (MountZfs (backup (origin m)) (destination m))]
  ++ map (λ child, Must (MountZfs (origin m +:+ "/" +:+ child +:+ "@backup")
                                  (destination m +:+ "/" +:+ child)))
         (children m).

Definition republish_plan (m : Mount) : list Step := unmount_plan m ++ mount_plan m.

(** 4.2 stop in reverse order, start in order, nothing for no containers *)
Definition stop_plan (cs : list string) : list Step :=
  match cs with
  | [] => []
  | _ => [Must (DockerStop (rev cs))]
  end.

Definition start_plan (cs : list string) : list Step :=
  match cs with
  | [] => []
  | _ => [Must (DockerStart cs)]
  end.

(** 4.5 the phases of one cycle *)
Definition snapshot_phase (R : Z) (app : App) : list Step :=
  concat (map (λ m, archive_plan m R) (mounts app))
  ++ stop_plan (containers app)
  ++ map (λ m, Must (ZfsSnapshot (backup (origin m)))) (mounts app)
  ++ start_plan (containers app).

Definition remount_phase (app : App) : list Step :=
  concat (map republish_plan (mounts app)).

Definition prune_phase (R : Z) (app : App) : list Step :=
  concat (map (λ m, prune_plan m R) (mounts app)).

Definition notify_plan (monitor : option string) (msg : string) : list Step :=
  match monitor with
  | Some url => [Notify url "up" msg]
  | None => []
  end.

Definition cycle_plan (R : Z) (group : list string) (monitor : option string)
    (apps : list App) : list Step :=
  notify_plan monitor "start"
  ++ concat (map (snapshot_phase R) apps)
  ++ stop_plan group
  ++ concat (map remount_phase apps)
  ++ start_plan group
  ++ concat (map (prune_phase R) apps)
  ++ notify_plan monitor "finish".

(** ** Judgements on runs *)

Section Judgements.
Context {W : Type}.

(** What a run may emit, whatever its result. *)
Definition emits {A} (P : Event → Prop) (m : M W A) : Prop :=
  ∀ s, ∃ t, trace (m s).2 = trace s ++ t ∧ Forall P t.

(** A run performs a plan: what it appends to the trace, and its
    result, follow the plan. *)
Definition performs (m : M W unit) (plan : list Step) : Prop :=
  ∀ s, ∃ t, trace (m s).2 = trace s ++ t ∧ follows plan (m s).1 t.

End Judgements.

(** ** Properties of events *)

(** No container command with an empty list of targets. *)
Definition names_targets (e : Event) : Prop :=
  match e with
  | Ran (DockerStop l) _ | Ran (DockerStart l) _ => l ≠ []
  | _ => True
  end.

(** Every destroy names [origin@backup-R] of a mount of the run, which is
    neither the mount's [origin@backup] nor another generation of it. *)
Definition destroys_only_last (R : Z) (apps : list App) (e : Event) : Prop :=
  match e with
  | Ran (ZfsDestroy n) _ =>
      ∃ app m, app ∈ apps ∧ m ∈ mounts app ∧ n = origin m +:+ "@backup-" +:+ pretty R
               ∧ n ≠ origin m +:+ "@backup"
               ∧ ∀ i : Z, i ≠ R → n ≠ origin m +:+ "@backup-" +:+ pretty i
  | _ => True
  end.

(** ** The snapshot store under rotation *)

(** What the tool's commands do to the set of names. *)
Definition renamed (a b : string) (X : gset string) : gset string :=
  if decide (a ∈ X) then X ∖ {[a]} ∪ {[b]} else X.

(** The renames of [backup-n], [backup-(n-1)], ..., [backup-1], in this order. *)
Fixpoint shifted (o : string) (n : nat) (X : gset string) : gset string :=
  match n with
  | O => X
  | S k => shifted o k (renamed (backup_n o (Z.of_nat (S k)))
                                (backup_n o (Z.of_nat (S k) + 1)) X)
  end.

Definition archived (o : string) (R : Z) (X : gset string) : gset string :=
  renamed (backup o) (backup_n o 1)
          (shifted o (Z.to_nat (R - 1)) (X ∖ {[backup_n o R]})).

(** [{origin@backup-1, ..., origin@backup-k}] *)
Definition gens (o : string) (k : nat) : gset string :=
  list_to_set (map (backup_n o) (countdown k)).

(** One backup cycle on the store, and [n] cycles in a row; [None] when a
    cycle raises. *)
Definition cycle (R : Z) (group : list string) (monitor : option string)
    (app : App) (w : Store) : Result unit * Store :=
  let r := snapshot_manager zfs no_monitor R group monitor [app] (start w) in
  (r.1, world r.2).

Fixpoint cycles (n : nat) (R : Z) (group : list string) (monitor : option string)
    (app : App) (w : Store) : option Store :=
  match n with
  | O => Some w
  | S n' =>
      match cycle R group monitor app w with
      | (Ok _, w') => cycles n' R group monitor app w'
      | (Raise _, _) => None
      end
  end.

Definition empty_store : Store := {| snaps := ∅; seen := [] |}.

(** A program that, started on the store [X], succeeds and leaves [X']. *)
Definition store_step (m : M Store unit) (X X' : gset string) : Prop :=
  ∀ s, snaps (world s) = X → ∃ s', m s = (Ok tt, s') ∧ snaps (world s') = X'.

(** A program that keeps [P] true of the store after every command. *)
Definition keeps (P : gset string → Prop) {A} (m : M Store A) : Prop :=
  ∀ s, P (snaps (world s)) → Forall P (seen (world s)) →
       P (snaps (world (m s).2)) ∧ Forall P (seen (world (m s).2)).

(** The ring of a volume advanced by one generation, from [X] to [X']:
    [backup] is gone, [backup-1] is what [backup] was, [backup-(i+1)] is
    what [backup-i] was for [1 <= i <= R-1] (so what was at [backup-R]
    has no place left), and every name outside the ring is where it
    was.  This fixes [X'] for every name. *)
Definition ring_advanced (o : string) (R : Z) (X X' : gset string) : Prop :=
  (backup o ∉ X')
  ∧ (backup_n o 1 ∈ X' ↔ backup o ∈ X)
  ∧ (∀ i : Z, (1 ≤ i ≤ R - 1)%Z → (backup_n o (i + 1) ∈ X' ↔ backup_n o i ∈ X))
  ∧ (∀ x, x ≠ backup o → (∀ i : Z, (1 ≤ i ≤ R)%Z → x ≠ backup_n o i) → (x ∈ X' ↔ x ∈ X)).

(** Every rename gives a name of the ring, [backup-1 .. backup-R]. *)
Definition renames_within (R : Z) (apps : list App) (e : Event) : Prop :=
  match e with
  | Ran (ZfsRename a b) _ =>
      ∃ app m (j : Z), app ∈ apps ∧ m ∈ mounts app ∧ (1 ≤ j ≤ R)%Z
                       ∧ b = backup_n (origin m) j
  | _ => True
  end.

(** C3 as the specification states it: after two archives in a row, no
    more snapshots are missing than after the first. *)
Definition replay_loses_no_more (R : Z) (app : App) (w : Store) : Prop :=
  ∃ s1 s2,
    archive_snapshots zfs app R (start w) = (Ok tt, s1)
    ∧ archive_snapshots zfs app R s1 = (Ok tt, s2)
    ∧ (size (snaps w) - size (snaps (world s2)) ≤ size (snaps w) - size (snaps (world s1)))%nat.

(** C2 as the specification states it: after [R+1] cycles from the empty
    store, exactly [origin@backup] and [origin@backup-1 ..
    origin@backup-R] exist. *)
Definition keeps_R_archived (R : Z) (app : App) (o : string) : Prop :=
  ∃ w', cycles (Z.to_nat (R + 1)) R [] None app empty_store = Some w'
        ∧ ∀ x, x ∈ snaps w' ↔
               x = backup o ∨ ∃ i : Z, (1 ≤ i ≤ R)%Z ∧ x = backup_n o i.

(** ** Further properties of events *)

(** Every request goes to the monitor of the run, with status [up] and
    the message [start] or [finish]. *)
Definition notifies_monitor (monitor : option string) (e : Event) : Prop :=
  match e with
  | Requested url status msg _ =>
      monitor = Some url ∧ status = "up" ∧ (msg = "start" ∨ msg = "finish")
  | _ => True
  end.

(** Every mount publishes the newest snapshot of a mount of the run, or
    of one of its children, at its own destination. *)
Definition mounts_newest (apps : list App) (e : Event) : Prop :=
  match e with
  | Ran (MountZfs n p) _ =>
      ∃ app m, app ∈ apps ∧ m ∈ mounts app
               ∧ ((n = origin m +:+ "@backup" ∧ p = destination m)
                  ∨ ∃ child, child ∈ children m
                             ∧ n = origin m +:+ "/" +:+ child +:+ "@backup"
                             ∧ p = destination m +:+ "/" +:+ child)
  | _ => True
  end.

(** Every rename moves a snapshot of a mount of the run one generation
    up, and never beyond [backup-R]. *)
Definition renames_one_up (R : Z) (apps : list App) (e : Event) : Prop :=
  match e with
  | Ran (ZfsRename a b) _ =>
      ∃ app m, app ∈ apps ∧ m ∈ mounts app
               ∧ ((a = backup (origin m) ∧ b = backup_n (origin m) 1)
                  ∨ ∃ i : Z, (1 ≤ i ≤ R - 1)%Z
                             ∧ a = backup_n (origin m) i ∧ b = backup_n (origin m) (i + 1))
  | _ => True
  end.

(** ** Reading the configuration, as a function of the file *)

(** The mount and the app a table of the file stands for, when it has
    the members the program subscripts. *)
Definition mount_of (t : TomlMount) : option Mount :=
  match t_origin t, t_destination t with
  | Some o, Some d => Some {| origin := o; destination := d; children := default [] (t_children t) |}
  | _, _ => None
  end.

Definition app_of (t : TomlApp) : option App :=
  match t_name t, t_containers t, mapM mount_of (default [] (t_mounts t)) with
  | Some n, Some cs, Some ms => Some {| name := n; containers := cs; mounts := ms |}
  | _, _, _ => None
  end.

(** A program that issues nothing: it leaves the world and the trace as
    they are. *)
Definition quiet {W A} (m : M W A) : Prop :=
  ∀ s, world (m s).2 = world s ∧ trace (m s).2 = trace s.

(** ** The commands of a plan *)

(** All the commands a plan names, and those it uses as probes. *)
Fixpoint step_cmds (st : Step) : list Cmd :=
  match st with
  | Must c => [c]
  | When probe body => probe :: flat_map step_cmds body
  | Notify _ _ _ => []
  end.

Fixpoint step_probes (st : Step) : list Cmd :=
  match st with
  | Must _ => []
  | When probe body => probe :: flat_map step_probes body
  | Notify _ _ _ => []
  end.

Definition plan_cmds (plan : list Step) : list Cmd := flat_map step_cmds plan.
Definition plan_probes (plan : list Step) : list Cmd := flat_map step_probes plan.

(** An existence check or a mount-point check. *)
Definition is_probe (c : Cmd) : Prop :=
  match c with
  | ZfsList _ | Mountpoint _ => True
  | _ => False
  end.

(** An event of a run that went well: a command that returned 0, a probe
    that returned anything, a notification that did not raise. *)
Definition went_well (e : Event) : Prop :=
  match e with
  | Ran c (Exit rc) => rc = 0%Z ∨ is_probe c
  | Ran _ (Throw _) => False
  | Requested _ _ _ reply => reply_raises reply = None
  end.


(** A program that, started on the store [X], raises [e]. *)
Definition store_raises (m : M Store unit) (X : gset string) (e : exn) : Prop :=
  ∀ s, snaps (world s) = X → ∃ s', m s = (Raise e, s').

(** A command of the mount utility. *)
Definition is_mount_command (e : Event) : Prop :=
  match e with
  | Ran (Mountpoint _) _ | Ran (Umount _) _ | Ran (MkdirP _) _ | Ran (MountZfs _ _) _ => True
  | _ => False
  end.

(** ** Reasoning about runs *)

Local Arguments String.append : simpl never.
Local Arguments pretty : simpl never.

(** *** Plans compose *)

Lemma follows_app_Ok p1 p2 r t1 t2 :
  follows p1 (Ok tt) t1 → follows p2 r t2 → follows (p1 ++ p2) r (t1 ++ t2).
Proof.
  intros H1 H2. remember (Ok tt) as r1 eqn:Er.
  induction H1; try discriminate; simpl.
  - done.
  - constructor. auto.
  - constructor; auto.
  - apply follows_when_enter. rewrite app_assoc. auto.
  - constructor; auto.
Qed.

Lemma follows_app_Raise p1 p2 e t1 :
  follows p1 (Raise e) t1 → follows (p1 ++ p2) (Raise e) t1.
Proof.
  intros H1. remember (Raise e) as r1 eqn:Er.
  induction H1; try discriminate; simpl.
  - constructor. auto.
  - by constructor.
  - constructor.
  - constructor; auto.
  - apply follows_when_enter. rewrite app_assoc. auto.
  - constructor.
  - constructor; auto.
  - by constructor.
Qed.



Section Reasoning.
Context {W : Type}.
Variable exec : Cmd → W → Outcome * W.
Variable http_get : string → string → string → W → Reply * W.
Variable load : string → W → FileOutcome.

Implicit Types (s : State W) (t : list Event) (c : Cmd).

(** *** Inversion of a successful run *)

Lemma bind_Ok_inv {A B} (m : M W A) (k : A → M W B) s b s' :
  (m ≫= k) s = (Ok b, s') → ∃ a s1, m s = (Ok a, s1) ∧ k a s1 = (Ok b, s').
Proof.
  unfold mbind, M_bind. destruct (m s) as [[a|e] s1]; [eauto | discriminate].
Qed.

Lemma bind_Ok {A B} (m : M W A) (k : A → M W B) s a s1 :
  m s = (Ok a, s1) → (m ≫= k) s = k a s1.
Proof. unfold mbind, M_bind. by intros ->. Qed.

Lemma bind_Raise {A B} (m : M W A) (k : A → M W B) s e s1 :
  m s = (Raise e, s1) → (m ≫= k) s = (Raise e, s1).
Proof. unfold mbind, M_bind. by intros ->. Qed.

Lemma run_Exit c s rc w :
  exec c (world s) = (Exit rc, w) →
  run exec c s = (Ok rc, {| world := w; trace := trace s ++ [Ran c (Exit rc)]; logs := logs s |}).
Proof. unfold run. by intros ->. Qed.

Lemma for_each_app {X} (l1 l2 : list X) (body : X → M W unit) s :
  for_each (l1 ++ l2) body s = (for_each l1 body;; for_each l2 body) s.
Proof.
  revert s. induction l1 as [|x l1 IH]; intros s; simpl; [done|].
  unfold mbind, M_bind in *. destruct (body x s) as [[[]|e] s1]; [apply IH | done].
Qed.

(** *** What a run may emit, whatever its result *)

Lemma emits_ret {A} P (a : A) : emits P (mret a : M W A).
Proof. intros s. exists []. by rewrite app_nil_r. Qed.

Lemma emits_raise {A} P e : emits P (raise e : M W A).
Proof. intros s. exists []. by rewrite app_nil_r. Qed.

Lemma emits_logging P lvl msg : emits P (logging lvl msg : M W unit).
Proof. intros s. exists []. by rewrite app_nil_r. Qed.

Lemma emits_run P c : (∀ o, P (Ran c o)) → emits P (run exec c).
Proof.
  intros HP s. unfold run. destruct (exec c (world s)) as [o w].
  exists [Ran c o]. split; [by destruct o | by constructor].
Qed.

Lemma emits_request P url status msg :
  (∀ r, P (Requested url status msg r)) → emits P (request http_get url status msg).
Proof.
  intros HP s. unfold request. destruct (http_get url status msg (world s)) as [r w].
  exists [Requested url status msg r]. split; [done | by constructor].
Qed.

Lemma emits_bind {A B} P (m : M W A) (k : A → M W B) :
  emits P m → (∀ a, emits P (k a)) → emits P (m ≫= k).
Proof.
  intros Hm Hk s. destruct (Hm s) as (t1 & E1 & F1).
  unfold mbind, M_bind. destruct (m s) as [[a|e] s1]; simpl in E1.
  - destruct (Hk a s1) as (t2 & E2 & F2). exists (t1 ++ t2).
    rewrite E2, E1, app_assoc. split; [done | by apply Forall_app].
  - by exists t1.
Qed.

Lemma emits_for_each {X} P (l : list X) (body : X → M W unit) :
  (∀ x, x ∈ l → emits P (body x)) → emits P (for_each l body).
Proof.
  induction l as [|x l IH]; intros Hb; simpl; [apply emits_ret|].
  apply emits_bind; [apply Hb; left | intros _; apply IH].
  intros y Hy. apply Hb. by right.
Qed.

(** *** A run performs a plan *)

Lemma performs_ext (m m' : M W unit) plan :
  (∀ s, m s = m' s) → performs m plan → performs m' plan.
Proof. intros E H s. rewrite <- E. apply H. Qed.

Lemma performs_ret : performs (mret tt : M W unit) [].
Proof. intros s. exists []. split; [by rewrite app_nil_r | constructor]. Qed.

Lemma performs_logging lvl msg : performs (logging lvl msg : M W unit) [].
Proof. intros s. exists []. split; [by rewrite app_nil_r | constructor]. Qed.

Lemma performs_seq (m k : M W unit) p1 p2 :
  performs m p1 → performs k p2 → performs (m;; k) (p1 ++ p2).
Proof.
  intros Hm Hk s. destruct (Hm s) as (t1 & E1 & F1).
  unfold mbind, M_bind. destruct (m s) as [[[]|e] s1]; simpl in *.
  - destruct (Hk s1) as (t2 & E2 & F2). exists (t1 ++ t2).
    rewrite E2, E1, app_assoc. split; [done | by apply follows_app_Ok].
  - exists t1. split; [done | by apply follows_app_Raise].
Qed.

Lemma performs_logging_seq lvl msg (k : M W unit) p :
  performs k p → performs (logging lvl msg;; k) p.
Proof. intros H. apply (performs_seq _ _ [] p); [apply performs_logging | done]. Qed.

Lemma performs_for_each {X} (l : list X) (body : X → M W unit) (plan : X → list Step) :
  (∀ x, performs (body x) (plan x)) →
  performs (for_each l body) (concat (map plan l)).
Proof.
  intros Hb. induction l as [|x l IH]; simpl; [apply performs_ret|].
  by apply performs_seq.
Qed.

Lemma performs_for_each_1 {X} (l : list X) (body : X → M W unit) (step : X → Step) :
  (∀ x, performs (body x) [step x]) →
  performs (for_each l body) (map step l).
Proof.
  intros Hb. induction l as [|x l IH]; simpl; [apply performs_ret|].
  by apply (performs_seq _ _ [_]).
Qed.

(** The two shapes every command takes in the program. *)

Lemma performs_must c lvl msg msg' :
  performs (rc ← run exec c;
            if negb (rc =? 0)%Z then logging lvl msg;; raise (RuntimeError msg')
            else mret tt)
           [Must c].
Proof.
  intros s. unfold mbind, M_bind, run. destruct (exec c (world s)) as [[rc|e] w]; simpl.
  - destruct (Z.eqb_spec rc 0) as [->|Hrc]; simpl.
    + eexists. split; [done | repeat constructor].
    + eexists. split; [done | by constructor].
  - eexists. split; [done | constructor].
Qed.

Lemma performs_when c (body : M W unit) plan :
  performs body plan →
  performs (rc ← run exec c; if (rc =? 0)%Z then body else mret tt) [When c plan].
Proof.
  intros Hb s. unfold mbind, M_bind, run. destruct (exec c (world s)) as [[rc|e] w]; simpl.
  - destruct (Z.eqb_spec rc 0) as [->|Hrc]; simpl.
    + match goal with |- context [body ?s1] => destruct (Hb s1) as (t & E & F) end.
      exists (Ran c (Exit 0) :: t). rewrite E. simpl. rewrite <- app_assoc. split; [done|].
      apply follows_when_enter. by rewrite app_nil_r.
    + eexists. split; [done | repeat constructor; done].
  - eexists. split; [done | constructor].
Qed.

Lemma performs_assoc {A} (m : M W A) (f : A → M W unit) (k : M W unit) plan :
  performs ((m ≫= f);; k) plan → performs (x ← m; f x;; k) plan.
Proof.
  apply performs_ext. intros s. unfold mbind, M_bind.
  by destruct (m s) as [[a|e] s1].
Qed.

(** *** Every function of the program performs its plan *)

Lemma countdown_seq (n : nat) :
  map (λ k : nat, (Z.of_nat n - Z.of_nat k)%Z) (seq 0 n) = countdown n.
Proof.
  induction n as [|n IH]; [done|].
  rewrite <- cons_seq, <- fmap_S_seq. cbn [map countdown]. f_equal.
  rewrite <- IH. change (S <$> seq 0 n) with (map S (seq 0 n)). rewrite map_map.
  apply map_ext. intros k. lia.
Qed.

Lemma range_down_countdown (R : Z) :
  range_down (R - 1) 0 = countdown (Z.to_nat (R - 1)).
Proof.
  unfold range_down. rewrite Z.sub_0_r.
  destruct (Z.le_gt_cases (R - 1) 0) as [Hle|Hgt].
  - replace (Z.to_nat (R - 1)) with 0%nat by lia. done.
  - rewrite <- countdown_seq. apply map_ext. intros k. lia.
Qed.

Lemma remove_mount_last_snapshot_performs m app_name R :
  performs (remove_mount_last_snapshot exec m app_name R) [destroy_last m R].
Proof. apply performs_when, performs_logging_seq, performs_must. Qed.

Lemma rename_mount_snapshots_performs m app_name R :
  performs (rename_mount_snapshots exec m app_name R)
           (map (shift m) (countdown (Z.to_nat (R - 1)))).
Proof.
  unfold rename_mount_snapshots. rewrite range_down_countdown.
  apply performs_for_each_1. intros i.
  apply performs_when, performs_logging_seq, performs_must.
Qed.

Lemma rename_mount_latest_snapshot_performs m app_name :
  performs (rename_mount_latest_snapshot exec m app_name) [shift_latest m].
Proof. apply performs_when, performs_logging_seq, performs_must. Qed.

Lemma archive_snapshots_performs app R :
  performs (archive_snapshots exec app R)
           (concat (map (λ m, archive_plan m R) (mounts app))).
Proof.
  apply performs_for_each. intros m.
  apply performs_seq; [apply remove_mount_last_snapshot_performs|].
  apply performs_seq; [apply rename_mount_snapshots_performs|].
  apply rename_mount_latest_snapshot_performs.
Qed.

Lemma remove_last_snapshot_performs app R :
  performs (remove_last_snapshot exec app R) (prune_phase R app).
Proof.
  apply performs_logging_seq, performs_for_each. intros m.
  apply remove_mount_last_snapshot_performs.
Qed.

Lemma stop_containers_performs app :
  performs (stop_containers exec app) [Must (DockerStop (rev (containers app)))].
Proof. apply performs_logging_seq, performs_must. Qed.

Lemma start_containers_performs app :
  performs (start_containers exec app) [Must (DockerStart (containers app))].
Proof. apply performs_logging_seq, performs_must. Qed.

Lemma snapshot_mounts_performs app :
  performs (snapshot_mounts exec app)
           (map (λ m, Must (ZfsSnapshot (backup (origin m)))) (mounts app)).
Proof.
  apply performs_for_each_1. intros m. apply performs_logging_seq, performs_must.
Qed.

Lemma performs_if_truthy {A} (l : list A) (m : M W unit) step :
  performs m [step] →
  performs (if truthy l then m else mret tt)
           (match l with [] => [] | _ :: _ => [step] end).
Proof. destruct l; simpl; auto using performs_ret. Qed.

Lemma do_snapshot_performs app R :
  performs (do_snapshot exec app R) (snapshot_phase R app).
Proof.
  apply performs_logging_seq.
  apply performs_seq; [apply archive_snapshots_performs|].
  apply performs_seq; [apply performs_if_truthy, stop_containers_performs|].
  apply performs_seq; [apply snapshot_mounts_performs|].
  apply performs_if_truthy, start_containers_performs.
Qed.

Lemma unmount_mount_performs m app_name :
  performs (unmount_mount exec m app_name) (unmount_plan m).
Proof.
  apply performs_when. apply performs_seq.
  - apply performs_for_each_1. intros child.
    apply performs_when, performs_logging_seq, performs_must.
  - apply performs_logging_seq, performs_must.
Qed.

Lemma mount_mount_performs m app_name :
  performs (mount_mount exec m app_name) (mount_plan m).
Proof.
  apply performs_assoc, (performs_seq _ _ [_]); [apply performs_must|].
  apply performs_logging_seq.
  apply performs_assoc, (performs_seq _ _ [_]); [apply performs_must|].
  apply performs_for_each_1. intros child. apply performs_logging_seq, performs_must.
Qed.

Lemma do_mount_performs app :
  performs (do_mount exec app) (remount_phase app).
Proof.
  apply performs_logging_seq, performs_for_each. intros m.
  apply performs_seq; [apply unmount_mount_performs | apply mount_mount_performs].
Qed.

Lemma stop_backup_containers_performs group :
  performs (stop_backup_containers exec group) [Must (DockerStop (rev group))].
Proof. apply performs_logging_seq, performs_must. Qed.

Lemma start_backup_containers_performs group :
  performs (start_backup_containers exec group) [Must (DockerStart group)].
Proof. apply performs_logging_seq, performs_must. Qed.

Lemma send_notification_performs url status msg :
  performs (send_notification http_get url status msg) [Notify url status msg].
Proof.
  intros s. unfold send_notification, mbind, M_bind, logging, request. simpl.
  destruct (http_get url status msg (world s)) as [r w].
  destruct r as [e| | |[[]|]]; simpl;
    try (eexists; split; [done | by repeat constructor]).
  destruct e; simpl; eexists; (split; [done | by repeat constructor]).
Qed.

Lemma notify_performs monitor msg :
  performs (match monitor with
            | Some url => send_notification http_get url "up" msg
            | None => mret tt
            end) (notify_plan monitor msg).
Proof.
  destruct monitor; simpl; [apply send_notification_performs | apply performs_ret].
Qed.

Lemma snapshot_manager_performs R group monitor apps :
  performs (snapshot_manager exec http_get R group monitor apps)
           (cycle_plan R group monitor apps).
Proof.
  apply performs_logging_seq.
  apply performs_seq; [apply notify_performs|].
  apply performs_seq; [apply performs_for_each; intros app; apply do_snapshot_performs|].
  apply performs_seq; [apply performs_if_truthy, stop_backup_containers_performs|].
  apply performs_seq; [apply performs_for_each; intros app; apply do_mount_performs|].
  apply performs_seq; [apply performs_if_truthy, start_backup_containers_performs|].
  apply performs_seq;
    [apply performs_for_each; intros app; apply remove_last_snapshot_performs|].
  rewrite <- (app_nil_r (notify_plan monitor "finish")).
  apply performs_seq; [apply notify_performs | apply performs_logging].
Qed.

End Reasoning.

Ltac emits_step :=
  lazymatch goal with
  | |- emits _ (mret _) => apply emits_ret
  | |- emits _ (raise _) => apply emits_raise
  | |- emits _ (logging _ _) => apply emits_logging
  | |- emits _ (run _ _) => apply emits_run; intros ?
  | |- emits _ (request _ _ _ _) => apply emits_request; intros ?
  | |- emits _ (for_each _ _) => apply emits_for_each; intros ? ?
  | |- emits _ (mbind _ _) => apply emits_bind; [|intros ?]
  | |- emits _ (if ?b then _ else _) => destruct b eqn:?
  | |- emits _ (match ?r with GetRaised _ => _ | NotJson => _ | NotObject => _ | Json _ => _ end) =>
      destruct r as [?| | |[[]|]]
  | |- emits _ (match ?o with Some _ => _ | None => _ end) => destruct o eqn:?
  end.

(** ** The claims *)

Section Claims.
Context {W : Type}.
Variable exec : Cmd → W → Outcome * W.
Variable http_get : string → string → string → W → Reply * W.

Implicit Types (s : State W) (t : list Event).






(** *** Names of snapshots are distinct *)

Lemma backup_n_inj (o : string) (i j : Z) : backup_n o i = backup_n o j → i = j.
Proof.
  unfold backup_n. intros E.
  apply (inj (String.app o)), (inj (String.app "@backup-")) in E.
  by apply (inj pretty) in E.
Qed.

Lemma backup_ne_backup_n (o : string) (i : Z) : backup o ≠ backup_n o i.
Proof.
  unfold backup, backup_n. intros E. apply (inj (String.app o)) in E.
  cbv [String.append] in E. discriminate E.
Qed.

Lemma truthy_rev_nonempty {A} (l : list A) : truthy l = true → rev l ≠ [] ∧ l ≠ [].
Proof.
  destruct l as [|a l]; [done|]. intros _. split; [|done]. simpl.
  intros E. apply (f_equal length) in E. rewrite length_app in E. simpl in E. lia.
Qed.

(** C9.  Whatever the run does and however it ends, no command it issues
    is [docker stop] or [docker start] with an empty list of targets: an
    app without containers and an empty backup group make the program
    skip the call. *)
Theorem runtime_never_given_empty_list (R : Z) (group : list string)
    (monitor : option string) (apps : list App) s :
  ∃ t, trace (snapshot_manager exec http_get R group monitor apps s).2 = trace s ++ t
       ∧ Forall names_targets t.
Proof.
  revert s. change (emits names_targets (snapshot_manager exec http_get R group monitor apps)).
  unfold snapshot_manager, do_snapshot, archive_snapshots, remove_last_snapshot, do_mount,
    remove_mount_last_snapshot, rename_mount_snapshots, rename_mount_latest_snapshot,
    snapshot_mounts, unmount_mount, mount_mount, send_notification,
    stop_containers, start_containers, stop_backup_containers, start_backup_containers.
  repeat emits_step; simpl; try done;
    match goal with H : truthy _ = true |- _ => by apply truthy_rev_nonempty in H as [? ?] end.
Qed.

(** C10.  Whatever the run does and however it ends, every [zfs destroy]
    it issues names [origin@backup-R] for a mount of one of the apps and
    the retention [R] of the run, and that name is neither the mount's
    [origin@backup] nor its [origin@backup-i] for any other [i]. *)
Theorem destroy_only_targets_last (R : Z) (group : list string)
    (monitor : option string) (apps : list App) s :
  ∃ t, trace (snapshot_manager exec http_get R group monitor apps s).2 = trace s ++ t
       ∧ Forall (destroys_only_last R apps) t.
Proof.
  revert s.
  change (emits (destroys_only_last R apps)
                (snapshot_manager exec http_get R group monitor apps)).
  unfold snapshot_manager, do_snapshot, archive_snapshots, remove_last_snapshot, do_mount,
    remove_mount_last_snapshot, rename_mount_snapshots, rename_mount_latest_snapshot,
    snapshot_mounts, unmount_mount, mount_mount, send_notification,
    stop_containers, start_containers, stop_backup_containers, start_backup_containers.
  repeat emits_step; simpl; try done;
    (eexists _, _; split; [eassumption|]; split; [eassumption|]; split; [done|]; split;
      [intros E; symmetry in E; by apply backup_ne_backup_n in E
      |intros i Hi E; by apply backup_n_inj in E]).
Qed.

(** C8.  Let the run have reached the stop of [app]'s containers: the
    start notification, the earlier apps and [app]'s archive succeeded,
    leaving state [s1].  If [docker stop] then returns a nonzero status,
    the whole run raises [RuntimeError]; the failed stop is the last
    command of the run, so no snapshot is created for [app] and no later
    app, group stop, remount, group start, prune or finish notification
    is issued. *)
Theorem stop_failure_aborts (R : Z) (group : list string) (monitor : option string)
    (earlier later : list App) (app : App) s s1 (rc : Z) (w : W) :
  containers app ≠ [] →
  until_stop exec http_get R monitor earlier app s = (Ok tt, s1) →
  exec (DockerStop (rev (containers app))) (world s1) = (Exit rc, w) →
  rc ≠ 0%Z →
  ∃ s', snapshot_manager exec http_get R group monitor (earlier ++ app :: later) s
        = (Raise (RuntimeError ("Failed to stop " +:+ name app +:+ " container(s)")), s')
        ∧ world s' = w
        ∧ trace s' = trace s1 ++ [Ran (DockerStop (rev (containers app))) (Exit rc)].
Proof.
  intros Hcs Hpre Hexec Hrc. unfold until_stop in Hpre.
  apply bind_Ok_inv in Hpre as ([] & sa & Ha & Hpre).
  apply bind_Ok_inv in Hpre as ([] & sb & Hb & Hpre).
  apply bind_Ok_inv in Hpre as ([] & sc & Hc & Hpre).
  apply bind_Ok_inv in Hpre as ([] & sd & Hd & Hpre).
  unfold snapshot_manager.
  rewrite (bind_Ok _ _ _ _ _ Ha), (bind_Ok _ _ _ _ _ Hb).
  eexists. split; [|split].
  - apply bind_Raise. rewrite for_each_app, (bind_Ok _ _ _ _ _ Hc). simpl.
    apply bind_Raise. unfold do_snapshot.
    rewrite (bind_Ok _ _ _ _ _ Hd), (bind_Ok _ _ _ _ _ Hpre).
    apply bind_Raise.
    assert (truthy (containers app) = true) as -> by by destruct (containers app).
    unfold stop_containers. erewrite bind_Ok by reflexivity.
    erewrite bind_Ok by (apply run_Exit; exact Hexec).
    destruct (Z.eqb_spec rc 0); [done|]. cbn [negb].
    erewrite bind_Ok by reflexivity. reflexivity.
  - done.
  - done.
Qed.

End Claims.

(** ** Rotation on the snapshot store *)

Section Store.

Implicit Types (X : gset string) (s : State Store).

Lemma elem_of_renamed a b X x :
  x ∈ renamed a b X ↔ (x ∈ X ∧ x ≠ a) ∨ (x = b ∧ a ∈ X).
Proof. unfold renamed. case_decide; set_solver. Qed.

Lemma size_renamed a b X : b ∉ X → size (renamed a b X) = size X.
Proof.
  intros Hb. unfold renamed. case_decide as Ha; [|done].
  rewrite size_union by set_solver. rewrite size_difference by set_solver.
  rewrite !size_singleton. assert (size X ≠ 0%nat); [|lia].
  intros E. apply size_empty_inv in E. set_solver.
Qed.

Lemma size_destroyed n X :
  size (X ∖ {[n]}) = (size X - (if decide (n ∈ X) then 1 else 0))%nat.
Proof.
  case_decide as Hn.
  - rewrite size_difference by set_solver. by rewrite size_singleton.
  - rewrite Nat.sub_0_r. f_equal. set_solver.
Qed.

Lemma elem_of_gens o k x :
  x ∈ gens o k ↔ ∃ i : Z, (1 ≤ i ≤ Z.of_nat k)%Z ∧ x = backup_n o i.
Proof.
  unfold gens. induction k as [|k IH].
  - simpl. split; [set_solver|]. intros (i & ? & _). lia.
  - cbn [countdown map list_to_set]. rewrite elem_of_union, elem_of_singleton, IH.
    split.
    + intros [->|(i & ? & ->)]; eexists; (split; [|done]); lia.
    + intros (i & Hi & ->). destruct (decide (i = Z.of_nat (S k))) as [->|]; [by left|].
      right. exists i. split; [lia | done].
Qed.

(** The loop of [rename_mount_snapshots], on sets. *)
Lemma elem_of_shifted o n X x :
  backup_n o (Z.of_nat n + 1) ∉ X →
  x ∈ shifted o n X ↔
    (x ∈ X ∧ ∀ i : Z, (1 ≤ i ≤ Z.of_nat n)%Z → x ≠ backup_n o i)
    ∨ (∃ i : Z, (1 ≤ i ≤ Z.of_nat n)%Z ∧ x = backup_n o (i + 1) ∧ backup_n o i ∈ X).
Proof.
  revert X. induction n as [|n IH]; intros X Hfree.
  - simpl. split; [intros ?; left; split; [done | intros; lia] |].
    intros [[? _]|(i & ? & _)]; [done | lia].
  - cbn [shifted]. set (a := backup_n o (Z.of_nat (S n))).
    set (b := backup_n o (Z.of_nat (S n) + 1)).
    assert (a ≠ b) as Hab by (intros E%backup_n_inj; lia).
    assert (∀ i : Z, (1 ≤ i ≤ Z.of_nat n)%Z → backup_n o i ≠ a ∧ backup_n o i ≠ b) as Hlow.
    { intros i Hi. split; intros E%backup_n_inj; lia. }
    rewrite IH.
    2:{ rewrite elem_of_renamed. replace (Z.of_nat n + 1)%Z with (Z.of_nat (S n)) by lia.
        fold a. intros [[_ ?]|[? _]]; done. }
    split.
    + intros [[Hx Hn]|(i & Hi & -> & Hin)].
      * apply elem_of_renamed in Hx as [[Hx Hxa]|[-> Ha]].
        -- left. split; [done|]. intros j Hj.
           destruct (decide (j = Z.of_nat (S n))) as [->|]; [done|]. apply Hn. lia.
        -- right. exists (Z.of_nat (S n)). split; [lia | done].
      * right. exists i. split; [lia|]. split; [done|].
        apply elem_of_renamed in Hin as [[? _]|[E _]]; [done|].
        by destruct (Hlow i Hi) as [_ ?].
    + intros [[Hx Hn]|(i & Hi & -> & Hin)].
      * left. split; [|intros j Hj; apply Hn; lia].
        apply elem_of_renamed. left. split; [done|]. apply Hn. lia.
      * destruct (decide (i = Z.of_nat (S n))) as [->|Hne].
        -- left. split; [apply elem_of_renamed; by right|].
           intros j Hj. by destruct (Hlow j Hj) as [_ ?].
        -- right. exists i. split; [lia|]. split; [done|].
           apply elem_of_renamed. left. split; [done|].
           assert (1 ≤ i ≤ Z.of_nat n)%Z as Hi' by lia. by destruct (Hlow i Hi').
Qed.

Lemma size_shifted o n X :
  backup_n o (Z.of_nat n + 1) ∉ X → size (shifted o n X) = size X.
Proof.
  revert X. induction n as [|n IH]; intros X Hfree; [done|].
  cbn [shifted]. rewrite IH.
  - apply size_renamed. by replace (Z.of_nat (S n) + 1)%Z with (Z.of_nat (S n) + 1)%Z by lia.
  - rewrite elem_of_renamed. replace (Z.of_nat n + 1)%Z with (Z.of_nat (S n)) by lia.
    intros [[_ ?]|[E%backup_n_inj _]]; [done | lia].
Qed.

(** *** Running on the store *)

Lemma store_ret X : store_step (mret tt) X X.
Proof. intros s <-. by eexists. Qed.

Lemma store_logging lvl msg X : store_step (logging lvl msg) X X.
Proof. intros s <-. by eexists. Qed.

Lemma store_seq (m k : M Store unit) X Y Z :
  store_step m X Y → store_step k Y Z → store_step (m;; k) X Z.
Proof.
  intros Hm Hk s HX. destruct (Hm s HX) as (s1 & E1 & H1).
  destruct (Hk s1 H1) as (s2 & E2 & H2). exists s2.
  by rewrite (bind_Ok _ _ _ _ _ E1).
Qed.

Lemma store_logging_seq lvl msg (k : M Store unit) X Y :
  store_step k X Y → store_step (logging lvl msg;; k) X Y.
Proof. intros H. eapply store_seq; [apply store_logging | done]. Qed.

Lemma store_ext (m m' : M Store unit) X Y :
  (∀ s, m s = m' s) → store_step m X Y → store_step m' X Y.
Proof. intros E H s HX. rewrite <- E. by apply H. Qed.

Lemma store_assoc {A} (m : M Store A) (f : A → M Store unit) (k : M Store unit) X Y :
  store_step ((m ≫= f);; k) X Y → store_step (x ← m; f x;; k) X Y.
Proof.
  apply store_ext. intros s. unfold mbind, M_bind. by destruct (m s) as [[a|e] s1].
Qed.

Lemma store_for_each {A} (l : list A) (body : A → M Store unit) X :
  (∀ x, store_step (body x) X X) → store_step (for_each l body) X X.
Proof.
  intros Hb. induction l as [|x l IH]; simpl; [apply store_ret|].
  eapply store_seq; [apply Hb | apply IH].
Qed.

Lemma store_if_truthy {A} (l : list A) (m : M Store unit) X :
  store_step m X X → store_step (if truthy l then m else mret tt) X X.
Proof. destruct l; simpl; auto using store_ret. Qed.

(** A command that must succeed, when the store lets it. *)
Lemma store_must c lvl msg msg' X X' :
  (∀ w, snaps w = X → zfs c w = (Exit 0, visit w X')) →
  store_step (rc ← run zfs c;
              if negb (rc =? 0)%Z then logging lvl msg;; raise (RuntimeError msg')
              else mret tt) X X'.
Proof.
  intros Hc s HX. eexists. split.
  - erewrite bind_Ok by (apply run_Exit, Hc, HX). reflexivity.
  - done.
Qed.

(** An existence check and the block it guards. *)
Lemma store_exists n (body : M Store unit) X X' :
  (n ∈ X → store_step body X X') → (n ∉ X → X' = X) →
  store_step (rc ← run zfs (ZfsList n); if (rc =? 0)%Z then body else mret tt) X X'.
Proof.
  intros Hin Hout s HX.
  assert (zfs (ZfsList n) (world s)
          = (Exit (if bool_decide (n ∈ X) then 0 else 1), visit (world s) X)) as E
    by (simpl; by rewrite HX).
  rewrite (bind_Ok _ _ _ _ _ (run_Exit zfs _ _ _ _ E)).
  case_bool_decide as Hn; simpl.
  - by apply (Hin Hn).
  - rewrite (Hout Hn). by eexists.
Qed.

(** Any other probe answers 0 on the store. *)
Lemma store_probe c (body : M Store unit) X X' :
  (∀ w, zfs c w = (Exit 0, visit w (snaps w))) →
  store_step body X X' →
  store_step (rc ← run zfs c; if (rc =? 0)%Z then body else mret tt) X X'.
Proof.
  intros Hc Hb s HX. rewrite (bind_Ok _ _ _ _ _ (run_Exit zfs _ _ _ _ (Hc _))).
  simpl. by apply Hb.
Qed.

Lemma remove_mount_last_snapshot_store m app_name R X :
  store_step (remove_mount_last_snapshot zfs m app_name R) X (X ∖ {[backup_n (origin m) R]}).
Proof.
  apply store_exists; [intros Hin | set_solver].
  apply store_logging_seq, store_must. intros w Hw. simpl. rewrite Hw.
  by rewrite bool_decide_eq_true_2.
Qed.

Lemma rename_store a b lvl msg msg' X :
  a ∈ X → b ∉ X →
  store_step (rc ← run zfs (ZfsRename a b);
              if negb (rc =? 0)%Z then logging lvl msg;; raise (RuntimeError msg')
              else mret tt) X (renamed a b X).
Proof.
  intros Ha Hb. apply store_must. intros w Hw. simpl. rewrite Hw.
  rewrite bool_decide_eq_true_2 by done. unfold renamed. by rewrite decide_True.
Qed.

Lemma renamed_absent a b X : a ∉ X → renamed a b X = X.
Proof. intros. unfold renamed. by rewrite decide_False. Qed.

Lemma rename_loop_store m app_name (n : nat) X :
  backup_n (origin m) (Z.of_nat n + 1) ∉ X →
  store_step
    (for_each (countdown n) (λ i,
       rc ← run zfs (ZfsList (origin m +:+ "@backup-" +:+ pretty i));
       if (rc =? 0)%Z then
         logging DEBUG ("Renaming previous " +:+ app_name +:+ " " +:+ origin m
                        +:+ " snapshot with age " +:+ pretty i);;
         rc ← run zfs (ZfsRename (origin m +:+ "@backup-" +:+ pretty i)
                                 (origin m +:+ "@backup-" +:+ pretty (i + 1)%Z));
         if negb (rc =? 0)%Z then
           logging CRITICAL ("Failed to rename " +:+ app_name +:+ " " +:+ origin m
                             +:+ " snapshot with age " +:+ pretty i);;
           raise (RuntimeError ("Failed to rename " +:+ app_name +:+ " " +:+ origin m
                                +:+ " snapshot with age " +:+ pretty i))
         else mret tt
       else mret tt))
    X (shifted (origin m) n X).
Proof.
  revert X. induction n as [|n IH]; intros X Hfree; [apply store_ret|].
  cbn [countdown for_each shifted]. eapply store_seq.
  - apply store_exists.
    + intros Hin. apply store_logging_seq, (rename_store _ _ _ _ _ _ Hin).
      by replace (Z.of_nat (S n) + 1)%Z with (Z.of_nat (S n) + 1)%Z by lia.
    + intros Hout. by apply renamed_absent.
  - apply IH. rewrite elem_of_renamed.
    replace (Z.of_nat n + 1)%Z with (Z.of_nat (S n)) by lia.
    intros [[_ ?]|[E%backup_n_inj _]]; [done | lia].
Qed.

Lemma not_elem_of_shifted_1 o n X :
  backup_n o (Z.of_nat n + 1) ∉ X → backup_n o 1 ∉ shifted o n X.
Proof.
  intros Hfree. rewrite elem_of_shifted by done.
  intros [[Hx Hn]|(i & Hi & E%backup_n_inj & _)]; [|lia].
  destruct n as [|n]; [done|]. apply (Hn 1%Z); [lia | done].
Qed.

Lemma archive_snapshots_store m app_name cs R X :
  (1 ≤ R)%Z →
  store_step (archive_snapshots zfs {| name := app_name; containers := cs; mounts := [m] |} R)
             X (archived (origin m) R X).
Proof.
  intros HR. unfold archive_snapshots. cbn [mounts name for_each].
  assert (backup_n (origin m) (Z.of_nat (Z.to_nat (R - 1)) + 1) ∉ X ∖ {[backup_n (origin m) R]})
    as Hfree by (replace (Z.of_nat (Z.to_nat (R - 1)) + 1)%Z with R by lia; set_solver).
  eapply store_seq; [|apply store_ret].
  eapply store_seq; [apply remove_mount_last_snapshot_store|].
  eapply store_seq.
  { unfold rename_mount_snapshots. rewrite range_down_countdown.
    by apply rename_loop_store. }
  apply store_exists.
  - intros Hin. apply store_logging_seq, (rename_store _ _ _ _ _ _ Hin).
    by apply not_elem_of_shifted_1.
  - intros Hout. unfold archived. by rewrite renamed_absent.
Qed.

Lemma backup_not_gen o i : backup_n o i ≠ backup o.
Proof. intros E. symmetry in E. by apply backup_ne_backup_n in E. Qed.

Lemma elem_of_archived o R X x :
  (1 ≤ R)%Z →
  x ∈ archived o R X ↔
    (x ∈ X ∧ x ≠ backup o ∧ ∀ i : Z, (1 ≤ i ≤ R)%Z → x ≠ backup_n o i)
    ∨ (∃ i : Z, (1 ≤ i ≤ R - 1)%Z ∧ x = backup_n o (i + 1) ∧ backup_n o i ∈ X)
    ∨ (x = backup_n o 1 ∧ backup o ∈ X).
Proof.
  intros HR. unfold archived.
  assert (backup_n o (Z.of_nat (Z.to_nat (R - 1)) + 1) ∉ X ∖ {[backup_n o R]})
    as Hfree by (replace (Z.of_nat (Z.to_nat (R - 1)) + 1)%Z with R by lia; set_solver).
  rewrite elem_of_renamed, !elem_of_shifted by done.
  replace (Z.of_nat (Z.to_nat (R - 1))) with (R - 1)%Z by lia.
  split.
  - intros [[[[Hx Hlow]|(i & Hi & -> & Hin)] Hcur]|[-> [[Hin _]|(i & _ & E & _)]]].
    + left. apply elem_of_difference in Hx as [Hx HxR]. split; [done|]. split; [done|].
      intros i Hi. destruct (decide (i = R)) as [->|]; [set_solver|]. apply Hlow. lia.
    + right; left. exists i. set_solver.
    + right; right. set_solver.
    + by apply backup_ne_backup_n in E.
  - intros [(Hx & Hcur & Hall)|[(i & Hi & -> & Hin)|[-> Hcur]]].
    + left. split; [|done]. left. split; [|intros i Hi; apply Hall; lia].
      apply elem_of_difference. split; [done|]. rewrite elem_of_singleton. apply Hall. lia.
    + left. split; [|apply backup_not_gen]. right. exists i. split; [done|]. split; [done|].
      apply elem_of_difference. split; [done|]. rewrite elem_of_singleton.
      intros E%backup_n_inj. lia.
    + right. split; [done|]. left. split.
      * apply elem_of_difference. split; [done|]. rewrite elem_of_singleton.
        apply not_eq_sym, backup_not_gen.
      * intros i _. apply not_eq_sym, backup_not_gen.
Qed.

Lemma size_archived o R X :
  (1 ≤ R)%Z →
  size (archived o R X)
  = (size X - (if decide (backup_n o R ∈ X) then 1 else 0))%nat.
Proof.
  intros HR. unfold archived.
  assert (backup_n o (Z.of_nat (Z.to_nat (R - 1)) + 1) ∉ X ∖ {[backup_n o R]})
    as Hfree by (replace (Z.of_nat (Z.to_nat (R - 1)) + 1)%Z with R by lia; set_solver).
  rewrite size_renamed by by apply not_elem_of_shifted_1.
  rewrite size_shifted by done. apply size_destroyed.
Qed.

(** *** One cycle on the store *)

Lemma stop_containers_store app X : store_step (stop_containers zfs app) X X.
Proof. apply store_logging_seq, store_must. intros w <-. done. Qed.

Lemma start_containers_store app X : store_step (start_containers zfs app) X X.
Proof. apply store_logging_seq, store_must. intros w <-. done. Qed.

Lemma stop_backup_containers_store group X : store_step (stop_backup_containers zfs group) X X.
Proof. apply store_logging_seq, store_must. intros w <-. done. Qed.

Lemma start_backup_containers_store group X : store_step (start_backup_containers zfs group) X X.
Proof. apply store_logging_seq, store_must. intros w <-. done. Qed.

Lemma snapshot_mounts_store m app_name cs X :
  backup (origin m) ∉ X →
  store_step (snapshot_mounts zfs {| name := app_name; containers := cs; mounts := [m] |})
             X (X ∪ {[backup (origin m)]}).
Proof.
  intros Hfree. unfold snapshot_mounts. cbn [mounts name for_each].
  eapply store_seq; [|apply store_ret].
  apply store_logging_seq, store_must. intros w Hw. simpl. rewrite Hw.
  by rewrite bool_decide_eq_true_2.
Qed.

Lemma unmount_mount_store m app_name X : store_step (unmount_mount zfs m app_name) X X.
Proof.
  apply store_probe; [done|]. eapply store_seq.
  - apply store_for_each. intros child. apply store_probe; [done|].
    apply store_logging_seq, store_must. intros w <-. done.
  - apply store_logging_seq, store_must. intros w <-. done.
Qed.

Lemma mount_mount_store m app_name X : store_step (mount_mount zfs m app_name) X X.
Proof.
  apply store_assoc, (store_seq _ _ X X X); [apply store_must; intros w <-; done|].
  apply store_logging_seq.
  apply store_assoc, (store_seq _ _ X X X); [apply store_must; intros w <-; done|].
  apply store_for_each. intros child.
  apply store_logging_seq, store_must. intros w <-. done.
Qed.

Lemma do_mount_store app X : store_step (do_mount zfs app) X X.
Proof.
  apply store_logging_seq, store_for_each. intros m.
  eapply store_seq; [apply unmount_mount_store | apply mount_mount_store].
Qed.

Lemma send_notification_store url status msg X :
  store_step (send_notification no_monitor url status msg) X X.
Proof. intros s <-. by eexists. Qed.

Lemma notify_store (monitor : option string) msg X :
  store_step (match monitor with
              | Some url => send_notification no_monitor url "up" msg
              | None => mret tt
              end) X X.
Proof. destruct monitor; [apply send_notification_store | apply store_ret]. Qed.

Lemma backup_not_archived o R X : (1 ≤ R)%Z → backup o ∉ archived o R X.
Proof.
  intros HR. rewrite elem_of_archived by done.
  intros [(_ & ? & _)|[(i & _ & E & _)|[E _]]]; [done| |];
    by apply backup_ne_backup_n in E.
Qed.

Lemma snapshot_manager_store m app_name cs R group monitor X :
  (1 ≤ R)%Z →
  store_step
    (snapshot_manager zfs no_monitor R group monitor
       [ {| name := app_name; containers := cs; mounts := [m] |} ])
    X ((archived (origin m) R X ∪ {[backup (origin m)]}) ∖ {[backup_n (origin m) R]}).
Proof.
  intros HR. unfold snapshot_manager. cbn [for_each].
  apply store_logging_seq.
  eapply store_seq; [apply notify_store|].
  eapply store_seq.
  { eapply store_seq; [|apply store_ret]. unfold do_snapshot.
    apply store_logging_seq.
    eapply store_seq; [by apply archive_snapshots_store|].
    eapply store_seq; [apply store_if_truthy, stop_containers_store|].
    eapply store_seq; [by apply snapshot_mounts_store, backup_not_archived|].
    apply store_if_truthy, start_containers_store. }
  eapply store_seq; [apply store_if_truthy, stop_backup_containers_store|].
  eapply store_seq; [eapply store_seq; [apply do_mount_store | apply store_ret]|].
  eapply store_seq; [apply store_if_truthy, start_backup_containers_store|].
  eapply store_seq.
  { eapply store_seq; [|apply store_ret]. unfold remove_last_snapshot.
    cbn [mounts name for_each]. apply store_logging_seq.
    eapply store_seq; [apply remove_mount_last_snapshot_store | apply store_ret]. }
  eapply store_seq; [apply notify_store | apply store_logging].
Qed.

(** The sets a mount goes through: [backup] and [backup-1 .. backup-k]. *)
Lemma cycled_empty o R :
  (1 ≤ R)%Z →
  (archived o R ∅ ∪ {[backup o]}) ∖ {[backup_n o R]} = {[backup o]} ∪ gens o 0.
Proof.
  intros HR. apply set_eq. intros x.
  rewrite elem_of_difference, !elem_of_union, elem_of_archived, elem_of_gens,
    !elem_of_singleton by done.
  split.
  - intros [[[(? & _)|[(i & _ & _ & ?)|[_ ?]]]| ->] _]; set_solver.
  - intros [->|(i & ? & _)]; [|lia]. split; [by right|]. apply not_eq_sym, backup_not_gen.
Qed.

Lemma cycled_gens o R (k : nat) :
  (1 ≤ R)%Z → (Z.of_nat k ≤ R - 1)%Z →
  (archived o R ({[backup o]} ∪ gens o k) ∪ {[backup o]}) ∖ {[backup_n o R]}
  = {[backup o]} ∪ gens o (Nat.min (S k) (Z.to_nat (R - 1))).
Proof.
  intros HR Hk. apply set_eq. intros x.
  rewrite elem_of_difference, !elem_of_union, elem_of_archived, !elem_of_gens,
    !elem_of_singleton by done.
  split.
  - intros [[[(Hx & Hcur & Hall)|[(i & Hi & -> & Hin)|[-> _]]]| ->] HxR]; [| | |by left].
    + apply elem_of_union in Hx as [?%elem_of_singleton|(i & Hi & ->)%elem_of_gens]; [done|].
      destruct (Hall i); [lia | done].
    + right. exists (i + 1)%Z. split; [|done].
      apply elem_of_union in Hin as [E%elem_of_singleton|(j & Hj & E%backup_n_inj)%elem_of_gens].
      * by apply backup_not_gen in E.
      * subst j. assert (i + 1 ≠ R)%Z by (intros E'; apply HxR; by rewrite E'). lia.
    + right. exists 1%Z. split; [|done].
      assert (1 ≠ R)%Z by (intros E'; apply HxR; by rewrite <- E'). lia.
  - intros [->|(i & Hi & ->)].
    + split; [by right|]. apply not_eq_sym, backup_not_gen.
    + split; [|intros E%backup_n_inj; lia]. left.
      destruct (decide (i = 1%Z)) as [->|Hne].
      * right; right. split; [done|]. apply elem_of_union. left. by apply elem_of_singleton.
      * right; left. exists (i - 1)%Z. split; [lia|].
        split; [f_equal; lia|]. apply elem_of_union. right. apply elem_of_gens.
        exists (i - 1)%Z. split; [lia | done].
Qed.

Lemma cycle_store m app_name cs R group monitor (w : Store) :
  (1 ≤ R)%Z →
  ∃ w', cycle R group monitor {| name := app_name; containers := cs; mounts := [m] |} w
        = (Ok tt, w')
        ∧ snaps w' = (archived (origin m) R (snaps w) ∪ {[backup (origin m)]})
                     ∖ {[backup_n (origin m) R]}.
Proof.
  intros HR.
  destruct (snapshot_manager_store m app_name cs R group monitor _ HR (start w) eq_refl)
    as (s' & E & HX).
  exists (world s'). unfold cycle. by rewrite E.
Qed.

Lemma cycles_gens m app_name cs R group monitor (n k : nat) (w : Store) :
  (1 ≤ R)%Z → (Z.of_nat k ≤ R - 1)%Z →
  snaps w = {[backup (origin m)]} ∪ gens (origin m) k →
  ∃ w', cycles n R group monitor {| name := app_name; containers := cs; mounts := [m] |} w
        = Some w'
        ∧ snaps w' = {[backup (origin m)]}
                     ∪ gens (origin m) (Nat.min (k + n) (Z.to_nat (R - 1))).
Proof.
  intros HR. revert k w. induction n as [|n IH]; intros k w Hk Hw.
  - exists w. split; [done|]. rewrite Hw. do 2 f_equal. lia.
  - cbn [cycles]. destruct (cycle_store m app_name cs R group monitor w HR) as (w1 & -> & H1).
    rewrite Hw, cycled_gens in H1 by done.
    destruct (IH (Nat.min (S k) (Z.to_nat (R - 1))) w1 ltac:(lia) H1) as (w' & E & H').
    exists w'. split; [done|].
    rewrite H'. do 2 f_equal. lia.
Qed.

(** *** What stays true of the store throughout a run *)

Lemma zfs_seen c (w : Store) : seen (zfs c w).2 = seen w ++ [snaps (zfs c w).2].
Proof. destruct c; simpl; repeat case_bool_decide; done. Qed.

Lemma keeps_ret {A} P (a : A) : keeps P (mret a : M Store A).
Proof. by intros s. Qed.

Lemma keeps_raise {A} P e : keeps P (raise e : M Store A).
Proof. by intros s. Qed.

Lemma keeps_logging P lvl msg : keeps P (logging lvl msg : M Store unit).
Proof. by intros s. Qed.

Lemma keeps_request P url status msg : keeps P (request no_monitor url status msg).
Proof. by intros s. Qed.

Lemma keeps_run P c :
  (∀ w, P (snaps w) → P (snaps (zfs c w).2)) → keeps P (run zfs c).
Proof.
  intros Hc s HP HF. unfold run.
  pose proof (Hc _ HP) as HP'. pose proof (zfs_seen c (world s)) as Hs.
  destruct (zfs c (world s)) as [o w']. simpl in HP', Hs.
  assert (P (snaps w') ∧ Forall P (seen w')) as HH.
  { split; [done|]. rewrite Hs. apply Forall_app. split; [done | by constructor]. }
  by destruct o.
Qed.

Lemma keeps_bind {A B} P (m : M Store A) (k : A → M Store B) :
  keeps P m → (∀ a, keeps P (k a)) → keeps P (m ≫= k).
Proof.
  intros Hm Hk s HP HF. destruct (Hm s HP HF) as [HP1 HF1].
  unfold mbind, M_bind. destruct (m s) as [[a|e] s1]; simpl in *; [|done].
  by apply Hk.
Qed.

Lemma keeps_for_each {T} P (l : list T) (body : T → M Store unit) :
  (∀ x, x ∈ l → keeps P (body x)) → keeps P (for_each l body).
Proof.
  induction l as [|x l IH]; intros Hb; simpl; [apply keeps_ret|].
  apply keeps_bind; [apply Hb; left | intros _; apply IH].
  intros y Hy. apply Hb. by right.
Qed.

Lemma elem_of_range_down (R i : Z) :
  i ∈ range_down (R - 1) 0 → (1 ≤ i ≤ R - 1)%Z.
Proof.
  unfold range_down. rewrite list_elem_of_In, in_map_iff.
  intros (k & <- & Hk%in_seq). lia.
Qed.

End Store.

Ltac keeps_step :=
  lazymatch goal with
  | |- keeps _ (mret _) => apply keeps_ret
  | |- keeps _ (raise _) => apply keeps_raise
  | |- keeps _ (logging _ _) => apply keeps_logging
  | |- keeps _ (run _ _) => apply keeps_run; intros ? ?
  | |- keeps _ (request _ _ _ _) => apply keeps_request
  | |- keeps _ (for_each _ _) => apply keeps_for_each; intros ? ?
  | |- keeps _ (mbind _ _) => apply keeps_bind; [|intros ?]
  | |- keeps _ (if ?b then _ else _) => destruct b eqn:?
  | |- keeps _ (match ?r with GetRaised _ => _ | NotJson => _ | NotObject => _ | Json _ => _ end) =>
      destruct r as [?| | |[[]|]]
  | |- keeps _ (match ?o with Some _ => _ | None => _ end) => destruct o eqn:?
  end.

Lemma snapshot_manager_keeps m app_name cs R group monitor :
  (1 ≤ R)%Z →
  keeps (λ V, V ⊆ {[backup (origin m)]} ∪ gens (origin m) (Z.to_nat R))
        (snapshot_manager zfs no_monitor R group monitor
           [ {| name := app_name; containers := cs; mounts := [m] |} ]).
Proof.
  intros HR. set (full := {[backup (origin m)]} ∪ gens (origin m) (Z.to_nat R)).
  assert (backup (origin m) ∈ full) as Hcur by set_solver.
  assert (∀ i : Z, (1 ≤ i ≤ R)%Z → backup_n (origin m) i ∈ full) as Hgen.
  { intros i Hi. apply elem_of_union. right. apply elem_of_gens. exists i. split; [lia | done]. }
  unfold snapshot_manager, do_snapshot, archive_snapshots, remove_last_snapshot, do_mount,
    remove_mount_last_snapshot, rename_mount_snapshots, rename_mount_latest_snapshot,
    snapshot_mounts, unmount_mount, mount_mount, send_notification,
    stop_containers, start_containers, stop_backup_containers, start_backup_containers.
  repeat keeps_step;
    repeat match goal with
           | H : _ ∈ [_] |- _ => apply list_elem_of_singleton in H; subst; cbn [mounts name] in *
           | H : _ ∈ range_down _ _ |- _ => apply elem_of_range_down in H
           end;
    cbn [zfs snd fst visit snaps]; repeat case_bool_decide; cbn [snd fst visit snaps];
    try done.
  all: pose proof (Hgen 1%Z ltac:(lia)) as Hone.
  all: try match goal with
           | H : (1 ≤ ?i ≤ _ - 1)%Z |- _ => pose proof (Hgen (i + 1)%Z ltac:(lia)) as Hnext
           end.
  all: unfold backup, backup_n in Hcur, Hone; try unfold backup_n in Hnext.
  all: clearbody full; clear Hgen; set_solver.
Qed.

(** C3, counterexample.  With retention 1 and only [tank/blog@backup] present, the first
    archive renames it to [backup-1] and loses nothing; the second
    destroys that [backup-1]. *)
Lemma replay_loses_more :
  ¬ replay_loses_no_more 1 blog {| snaps := {["tank/blog@backup"]}; seen := [] |}.
Proof.
  intros (s1 & s2 & E1 & E2 & H).
  vm_compute in E1. injection E1 as <-.
  vm_compute in E2. injection E2 as <-.
  vm_compute in H. inversion H.
Qed.

Lemma archived_ring o R (X : gset string) :
  (1 ≤ R)%Z → ring_advanced o R X (archived o R X).
Proof.
  intros HR. split; [by apply backup_not_archived|]. split; [|split].
  - rewrite elem_of_archived by done. split.
    + intros [(_ & _ & Hall)|[(i & Hi & E%backup_n_inj & _)|[_ ?]]]; [|lia|done].
      destruct (Hall 1%Z); [lia | done].
    + intros ?. by right; right.
  - intros i Hi. rewrite elem_of_archived by done. split.
    + intros [(_ & _ & Hall)|[(j & Hj & E%backup_n_inj & Hin)|[E%backup_n_inj _]]];
        [|by replace i with j by lia|lia].
      destruct (Hall (i + 1)%Z); [lia | done].
    + intros Hin. right; left. by exists i.
  - intros x Hcur Hall. rewrite elem_of_archived by done. split.
    + intros [(? & _)|[(i & Hi & -> & _)|[-> _]]]; [done| |].
      * destruct (Hall (i + 1)%Z); [lia | done].
      * destruct (Hall 1%Z); [lia | done].
    + intros Hx. by left.
Qed.

(** What the first step of an archive issues on the store: the check,
    and the destroy exactly when the check finds the snapshot. *)
Lemma remove_mount_last_snapshot_trace m app_name R (s s1 : State Store) :
  remove_mount_last_snapshot zfs m app_name R s = (Ok tt, s1) →
  trace s1
  = trace s ++ (if bool_decide (backup_n (origin m) R ∈ snaps (world s))
                then [Ran (ZfsList (backup_n (origin m) R)) (Exit 0);
                      Ran (ZfsDestroy (backup_n (origin m) R)) (Exit 0)]
                else [Ran (ZfsList (backup_n (origin m) R)) (Exit 1)]).
Proof.
  unfold remove_mount_last_snapshot, backup_n, mbind, M_bind, run, logging.
  cbn [zfs world trace logs snaps visit].
  case_bool_decide as Hin; cbn [Z.eqb negb world trace logs snaps visit].
  - rewrite bool_decide_eq_true_2 by done. cbn [Z.eqb negb mret M_ret].
    intros [= <-]. cbn [trace]. by rewrite <- app_assoc.
  - by intros [= <-].
Qed.

Lemma archive_snapshots_destroys m app_name cs R (s s1 : State Store) :
  archive_snapshots zfs {| name := app_name; containers := cs; mounts := [m] |} R s
  = (Ok tt, s1) →
  ∃ t, trace s1 = trace s ++ t
       ∧ ∀ n o, In (Ran (ZfsDestroy n) o) t ↔
                n = backup_n (origin m) R ∧ o = Exit 0
                ∧ backup_n (origin m) R ∈ snaps (world s).
Proof.
  unfold archive_snapshots. cbn [mounts name for_each]. intros H.
  apply bind_Ok_inv in H as ([] & s' & H & [= <-]).
  apply bind_Ok_inv in H as ([] & sa & Hrem & Hrest).
  apply remove_mount_last_snapshot_trace in Hrem.
  assert (emits (λ e, ∀ n o, e ≠ Ran (ZfsDestroy n) o)
            (rename_mount_snapshots zfs m app_name R;;
             rename_mount_latest_snapshot zfs m app_name)) as Hem.
  { unfold rename_mount_snapshots, rename_mount_latest_snapshot. repeat emits_step; done. }
  destruct (Hem sa) as (t2 & E2 & F2). rewrite Hrest in E2. cbn [snd] in E2.
  rewrite Forall_forall in F2.
  eexists. split; [rewrite E2, Hrem, <- app_assoc; reflexivity|].
  intros n o. rewrite in_app_iff. split.
  - intros [Hin|Hin].
    + case_bool_decide as Hl; simpl in Hin.
      * destruct Hin as [[=]|[[= <- <-]|[]]]. done.
      * by destruct Hin as [[=]|[]].
    + apply list_elem_of_In in Hin. by destruct (F2 _ Hin n o).
  - intros (-> & -> & Hl). left. rewrite bool_decide_eq_true_2 by done. right. by left.
Qed.

(** C3, amended.  On the snapshot store, for every state and every
    retention [R >= 1], two archives in a row both succeed.  Each one
    issues a destroy exactly when it finds a snapshot at
    [origin@backup-R], for that snapshot and no other, and advances the
    ring by one ([backup-(i+1)] becomes what [backup-i] was, [backup-1]
    what [backup] was, [backup] is gone, every other name stays).  So each
    loses the snapshot it found at [backup-R] and nothing else, and the
    second loses at most one more than the first: the one the first moved
    to [backup-R], which was at [backup-(R-1)] (at [backup] when [R = 1])
    at the start. *)
Theorem archive_twice (m : Mount) (app_name : string) (cs : list string) (R : Z)
    (s : State Store) :
  (1 ≤ R)%Z →
  let app := {| name := app_name; containers := cs; mounts := [m] |} in
  let last := backup_n (origin m) R in
  ∃ s1 s2,
    archive_snapshots zfs app R s = (Ok tt, s1)
    ∧ archive_snapshots zfs app R s1 = (Ok tt, s2)
    ∧ ring_advanced (origin m) R (snaps (world s)) (snaps (world s1))
    ∧ ring_advanced (origin m) R (snaps (world s1)) (snaps (world s2))
    ∧ (∃ t1 t2,
         trace s1 = trace s ++ t1 ∧ trace s2 = trace s1 ++ t2
         ∧ (∀ n o, In (Ran (ZfsDestroy n) o) t1 ↔
                   n = last ∧ o = Exit 0 ∧ last ∈ snaps (world s))
         ∧ (∀ n o, In (Ran (ZfsDestroy n) o) t2 ↔
                   n = last ∧ o = Exit 0 ∧ last ∈ snaps (world s1)))
    ∧ (last ∈ snaps (world s1) ↔
         (R = 1%Z ∧ backup (origin m) ∈ snaps (world s))
         ∨ ((2 ≤ R)%Z ∧ backup_n (origin m) (R - 1) ∈ snaps (world s)))
    ∧ size (snaps (world s1))
      = (size (snaps (world s)) - (if decide (last ∈ snaps (world s)) then 1 else 0))%nat
    ∧ size (snaps (world s2))
      = (size (snaps (world s1)) - (if decide (last ∈ snaps (world s1)) then 1 else 0))%nat
    ∧ (size (snaps (world s1)) ≤ size (snaps (world s2)) + 1)%nat.
Proof.
  intros HR app last.
  destruct (archive_snapshots_store m app_name cs R _ HR s eq_refl) as (s1 & E1 & X1).
  destruct (archive_snapshots_store m app_name cs R _ HR s1 eq_refl) as (s2 & E2 & X2).
  exists s1, s2. split; [done|]. split; [done|].
  pose proof (archived_ring (origin m) R (snaps (world s)) HR) as Hr1.
  pose proof (archived_ring (origin m) R (snaps (world s1)) HR) as Hr2.
  rewrite <- X1 in Hr1. rewrite <- X2 in Hr2.
  split; [done|]. split; [done|]. split.
  { destruct (archive_snapshots_destroys m app_name cs R s s1 E1) as (t1 & T1 & D1).
    destruct (archive_snapshots_destroys m app_name cs R s1 s2 E2) as (t2 & T2 & D2).
    by exists t1, t2. }
  split.
  { destruct Hr1 as (_ & Hone & Hshift & _). unfold last.
    destruct (decide (R = 1%Z)) as [->|Hne].
    - rewrite Hone. split; [intros ?; by left | intros [[_ ?]|[? _]]; [done | lia]].
    - specialize (Hshift (R - 1)%Z ltac:(lia)).
      replace (R - 1 + 1)%Z with R in Hshift by lia. rewrite Hshift.
      split; [intros ?; right; split; [lia | done] | intros [[? _]|[_ ?]]; [lia | done]]. }
  rewrite X2, X1. rewrite !size_archived by done. fold last.
  repeat split. repeat case_decide; lia.
Qed.

Lemma archive_twice_witness :
  (1 ≤ 1)%Z
  ∧ ∃ s1 s2,
      archive_snapshots zfs blog 1 (start {| snaps := {["tank/blog@backup"]}; seen := [] |})
      = (Ok tt, s1)
      ∧ archive_snapshots zfs blog 1 s1 = (Ok tt, s2)
      ∧ ring_advanced "tank/blog" 1 {["tank/blog@backup"]} (snaps (world s1))
      ∧ ring_advanced "tank/blog" 1 (snaps (world s1)) (snaps (world s2))
      ∧ (size (snaps (world s1)) ≤ size (snaps (world s2)) + 1)%nat.
Proof.
  split; [lia|].
  destruct (archive_twice blog_mount "blog" [] 1
              (start {| snaps := {["tank/blog@backup"]}; seen := [] |}))
    as (s1 & s2 & E1 & E2 & R1 & R2 & _ & _ & _ & _ & H); [lia|].
  exists s1, s2. split; [exact E1|]. split; [exact E2|].
  split; [exact R1|]. split; [exact R2 | exact H].
Defined.

Lemma cycles_keeps P m app_name cs R group monitor (n : nat) (w w' : Store) :
  keeps P (snapshot_manager zfs no_monitor R group monitor
             [ {| name := app_name; containers := cs; mounts := [m] |} ]) →
  P (snaps w) → Forall P (seen w) →
  cycles n R group monitor {| name := app_name; containers := cs; mounts := [m] |} w = Some w' →
  P (snaps w') ∧ Forall P (seen w').
Proof.
  intros Hk. revert w. induction n as [|n IH]; intros w HP HF; cbn [cycles].
  - by intros [= <-].
  - unfold cycle.
    destruct (Hk (start w) HP HF) as [HP1 HF1].
    destruct (snapshot_manager _ _ _ _ _ _ _) as [[[]|e] s1]; [|done].
    simpl. by apply IH.
Qed.

(** C2, counterexample.  The specification's own scenario, retention 2 and the app [blog]: after three
    cycles [tank/blog@backup-2] does not exist. *)
Lemma keeps_R_archived_fails : ¬ keeps_R_archived 2 blog "tank/blog".
Proof.
  intros (w' & E & H). vm_compute in E. injection E as <-.
  assert ("tank/blog@backup-2" ∈ snaps
            {| snaps := {["tank/blog@backup"; "tank/blog@backup-1"]}; seen := [] |}) as Hin.
  { match type of H with
    | ∀ x, x ∈ snaps ?w ↔ _ =>
        assert (bool_decide ("tank/blog@backup-2" ∈ snaps w) = true) as Hb
    end.
    { apply bool_decide_eq_true_2, H. right. exists 2%Z. split; [lia | done]. }
    vm_compute in Hb. discriminate Hb. }
  vm_compute in Hin. set_solver.
Qed.

(** C2, amended.  On the snapshot store, for every retention [R >= 1] and
    every app with one mount, [R+1] cycles from the empty store all
    succeed and leave exactly [origin@backup] and [origin@backup-1 ..
    origin@backup-(R-1)]: the prune that ends each cycle destroys
    [origin@backup-R].  After every command of these cycles the store
    holds nothing but [origin@backup] and [origin@backup-1 ..
    origin@backup-R]. *)
Theorem retention_after_cycles (m : Mount) (app_name : string) (cs group : list string)
    (monitor : option string) (R : Z) :
  (1 ≤ R)%Z →
  let app := {| name := app_name; containers := cs; mounts := [m] |} in
  ∃ w', cycles (Z.to_nat (R + 1)) R group monitor app empty_store = Some w'
        ∧ (∀ x, x ∈ snaps w' ↔
                x = backup (origin m)
                ∨ ∃ i : Z, (1 ≤ i ≤ R - 1)%Z ∧ x = backup_n (origin m) i)
        ∧ Forall (λ V : gset string, ∀ x, x ∈ V →
                    x = backup (origin m)
                    ∨ ∃ i : Z, (1 ≤ i ≤ R)%Z ∧ x = backup_n (origin m) i)
                 (seen w').
Proof.
  intros HR app. subst app.
  replace (Z.to_nat (R + 1)) with (S (Z.to_nat R)) by lia.
  assert (∃ w', cycles (S (Z.to_nat R)) R group monitor
                       {| name := app_name; containers := cs; mounts := [m] |} empty_store
                = Some w'
                ∧ snaps w' = {[backup (origin m)]} ∪ gens (origin m) (Z.to_nat (R - 1)))
    as (w' & E & Hw').
  { cbn [cycles].
    destruct (cycle_store m app_name cs R group monitor empty_store HR) as (w1 & -> & H1).
    cbn [snaps empty_store] in H1. rewrite cycled_empty in H1 by done.
    destruct (cycles_gens m app_name cs R group monitor (Z.to_nat R) 0 w1 HR ltac:(lia) H1)
      as (w' & E & H').
    exists w'. split; [done|]. rewrite H'. do 2 f_equal. lia. }
  exists w'. split; [done|]. split.
  - intros x. rewrite Hw', elem_of_union, elem_of_singleton, elem_of_gens.
    by replace (Z.of_nat (Z.to_nat (R - 1))) with (R - 1)%Z by lia.
  - pose proof (cycles_keeps
                  (λ V, V ⊆ {[backup (origin m)]} ∪ gens (origin m) (Z.to_nat R))
                  m app_name cs R group monitor (S (Z.to_nat R)) empty_store w'
                  (snapshot_manager_keeps m app_name cs R group monitor HR)) as Hk.
    destruct Hk as [_ HF]; [set_solver | constructor | exact E |].
    eapply Forall_impl; [exact HF|]. intros V HV x Hx. apply HV in Hx.
    revert Hx. rewrite elem_of_union, elem_of_singleton, elem_of_gens.
    by replace (Z.of_nat (Z.to_nat R)) with R by lia.
Qed.

(** ** Configuration and the top level *)

Section Configuration.
Context {W : Type}.
Variable exec : Cmd → W → Outcome * W.
Variable http_get : string → string → string → W → Reply * W.
Variable load : string → W → FileOutcome.

(** [read_config] itself follows the precedence: the value passed in,
    else the value of the file, else the default. *)
Lemma read_config_precedence path input_retention input_backup_containers
    input_monitor_url (s s' : State W) cfg :
  read_config load path input_retention input_backup_containers input_monitor_url s
  = (Ok cfg, s') →
  ∃ toml table,
    load path (world s) = Parsed toml ∧ t_config toml = Some table
    ∧ retention cfg = default (default 14%Z (t_retention table)) input_retention
    ∧ backup_containers cfg
      = default (default [] (t_backup_containers table)) input_backup_containers
    ∧ monitor_url cfg = match input_monitor_url with
                        | Some u => Some u
                        | None => t_monitor_url table
                        end.
Proof.
  unfold read_config. intros H.
  apply bind_Ok_inv in H as ([] & s1 & [= <-] & H).
  apply bind_Ok_inv in H as (w & s2 & [= <- <-] & H). cbn [world] in H.
  destruct (load path (world s)) as [| |toml] eqn:El.
  - apply bind_Ok_inv in H as (? & ? & _ & H). discriminate H.
  - discriminate H.
  - apply bind_Ok_inv in H as (table & s3 & Ht & H).
    destruct (t_config toml) as [table'|] eqn:Ec; [|discriminate Ht].
    injection Ht as -> <-.
    apply bind_Ok_inv in H as ([] & ? & _ & H).
    apply bind_Ok_inv in H as ([] & ? & _ & H).
    apply bind_Ok_inv in H as ([] & ? & _ & H).
    apply bind_Ok_inv in H as (parsed & ? & _ & H).
    apply bind_Ok_inv in H as ([] & ? & _ & H).
    injection H as <- <-. exists toml, table. repeat split; done.
Qed.

(** But the run never passes anything in: apart from the path of the
    file, what was given on the command line does not reach it. *)
Lemma snapshot_manager_main_ignores_overrides (args args' : Args.t) :
  Args.config args = Args.config args' →
  snapshot_manager_main exec http_get load args
  = snapshot_manager_main exec http_get load args'.
Proof. unfold snapshot_manager_main. by intros ->. Qed.

End Configuration.

(** C4.  The file declares retention 2 and the command line says [-r 3]:
    the run rotates with retention 2 (its first command looks for
    [tank/blog@backup-2], and no command names [backup-3]), exactly as
    the run without [-r] does. *)
Theorem cli_retention_is_ignored :
  let r := main (scripted fresh_host) silent blog_file args_retention_3 (start tt) in
  r.1 = Ok tt
  ∧ trace r.2
    = [ Requested "http://kuma/push" "up" "start" (Json (Some true));
        Ran (ZfsList "tank/blog@backup-2") (Exit 1);
        Ran (ZfsList "tank/blog@backup-1") (Exit 1);
        Ran (ZfsList "tank/blog@backup") (Exit 1);
        Ran (DockerStop ["web"]) (Exit 0);
        Ran (ZfsSnapshot "tank/blog@backup") (Exit 0);
        Ran (DockerStart ["web"]) (Exit 0);
        Ran (Mountpoint "/mnt/blog") (Exit 1);
        Ran (MkdirP "/mnt/blog") (Exit 0);
        Ran (MountZfs "tank/blog@backup" "/mnt/blog") (Exit 0);
        Ran (ZfsList "tank/blog@backup-2") (Exit 1);
        Requested "http://kuma/push" "up" "finish" (Json (Some true)) ]
  ∧ r = main (scripted fresh_host) silent blog_file args_plain (start tt).
Proof. vm_compute. done. Qed.

(** C5.  The file declares a monitor, nothing is given on the command
    line, and stopping the container fails: the monitor was told [up] at
    the start, the error reaches the caller, and the run ends at the
    failed stop without any [down] notification. *)
Theorem failure_not_reported_to_file_monitor :
  let r := main (scripted stop_fails) silent blog_file args_plain (start tt) in
  r.1 = Raise (RuntimeError "Failed to stop blog container(s)")
  ∧ trace r.2
    = [ Requested "http://kuma/push" "up" "start" (Json (Some true));
        Ran (ZfsList "tank/blog@backup-2") (Exit 1);
        Ran (ZfsList "tank/blog@backup-1") (Exit 1);
        Ran (ZfsList "tank/blog@backup") (Exit 1);
        Ran (DockerStop ["web"]) (Exit 1) ].
Proof. vm_compute. done. Qed.

(** The sibling path: with the monitor given by [-m], the same failure is
    reported [down] before the error reaches the caller. *)
Lemma failure_reported_to_cli_monitor :
  let args := {| Args.config := "config.toml"; Args.retention := None;
                 Args.backup_containers := None;
                 Args.monitor_url := Some "http://cli/push"; Args.verbosity := 0 |} in
  let r := main (scripted stop_fails) silent blog_file args (start tt) in
  r.1 = Raise (RuntimeError "Failed to stop blog container(s)")
  ∧ last (trace r.2) = Some (Requested "http://cli/push" "down" "exception" (Json (Some true))).
Proof. vm_compute. done. Qed.

(** ** The claims on the scenarios *)



Lemma stop_failure_aborts_witness :
  ∃ s', snapshot_manager (scripted stop_fails) silent 2 [] None ([] ++ web_blog :: [blog]) (start tt)
        = (Raise (RuntimeError ("Failed to stop " +:+ "blog" +:+ " container(s)")), s')
        ∧ world s' = tt
        ∧ trace s' = [ Ran (ZfsList "tank/blog@backup-2") (Exit 1);
                       Ran (ZfsList "tank/blog@backup-1") (Exit 1);
                       Ran (ZfsList "tank/blog@backup") (Exit 1) ]
                     ++ [Ran (DockerStop (rev ["web"])) (Exit 1)].
Proof.
  apply (stop_failure_aborts (scripted stop_fails) silent 2 [] None [] [blog] web_blog
           (start tt)
           (until_stop (scripted stop_fails) silent 2 None [] web_blog (start tt)).2 1%Z tt).
  - discriminate.
  - vm_compute. reflexivity.
  - reflexivity.
  - lia.
Defined.

Lemma retention_after_cycles_witness :
  (1 ≤ 2)%Z
  ∧ ∃ w', cycles (Z.to_nat (2 + 1)) 2 [] None blog empty_store = Some w'
          ∧ (∀ x, x ∈ snaps w' ↔
                  x = backup "tank/blog"
                  ∨ ∃ i : Z, (1 ≤ i ≤ 2 - 1)%Z ∧ x = backup_n "tank/blog" i)
          ∧ Forall (λ V : gset string, ∀ x, x ∈ V →
                      x = backup "tank/blog"
                      ∨ ∃ i : Z, (1 ≤ i ≤ 2)%Z ∧ x = backup_n "tank/blog" i)
                   (seen w').
Proof.
  split; [lia|]. apply (retention_after_cycles blog_mount "blog" [] [] None 2). lia.
Defined.

(** ** The end-to-end scenario of the specification *)

Example three_runs :
  (snaps <$> cycles 1 2 [] None blog empty_store) = Some {["tank/blog@backup"]}
  ∧ (snaps <$> cycles 2 2 [] None blog empty_store)
    = Some {["tank/blog@backup"; "tank/blog@backup-1"]}
  ∧ (snaps <$> cycles 3 2 [] None blog empty_store)
    = Some {["tank/blog@backup"; "tank/blog@backup-1"]}.
Proof. vm_compute. done. Qed.

Example stop_and_start_order :
  let app := {| name := "shop"; containers := ["web"; "api"; "db"]; mounts := [] |} in
  trace (do_snapshot (scripted fresh_host) app 2 (start tt)).2
  = [ Ran (DockerStop ["db"; "api"; "web"]) (Exit 0);
      Ran (DockerStart ["web"; "api"; "db"]) (Exit 0) ].
Proof. vm_compute. done. Qed.

(** ** More on what a run issues *)

Ltac unfold_run :=
  unfold snapshot_manager, do_snapshot, archive_snapshots, remove_last_snapshot, do_mount,
    remove_mount_last_snapshot, rename_mount_snapshots, rename_mount_latest_snapshot,
    snapshot_mounts, unmount_mount, mount_mount, send_notification,
    stop_containers, start_containers, stop_backup_containers, start_backup_containers.

(** X1.  Whatever the run does and however it ends, its only HTTP requests
    go to the monitor it was given, with status [up] and message [start]
    or [finish]; without a monitor it makes no request at all. *)
Theorem run_notifies_only_monitor {W} (exec : Cmd → W → Outcome * W)
    (http_get : string → string → string → W → Reply * W)
    (R : Z) (group : list string) (monitor : option string) (apps : list App) (s : State W) :
  ∃ t, trace (snapshot_manager exec http_get R group monitor apps s).2 = trace s ++ t
       ∧ Forall (notifies_monitor monitor) t
       ∧ (monitor = None → ∀ url status msg r, Requested url status msg r ∉ t).
Proof.
  assert (emits (notifies_monitor monitor) (snapshot_manager exec http_get R group monitor apps))
    as H.
  { unfold_run. repeat emits_step; simpl; try done; auto. }
  destruct (H s) as (t & E & F). exists t. split; [done|]. split; [done|].
  intros -> url status msg r Hin. rewrite Forall_forall in F.
  by destruct (F _ Hin) as [? _].
Qed.

(** X2.  Whatever the run does and however it ends, every [mount] it
    issues publishes [origin@backup] of one of its mounts at the mount's
    destination, or [origin/child@backup] of a declared child at
    [destination/child]: an archived generation is never mounted. *)
Theorem run_mounts_only_newest {W} (exec : Cmd → W → Outcome * W)
    (http_get : string → string → string → W → Reply * W)
    (R : Z) (group : list string) (monitor : option string) (apps : list App) (s : State W) :
  ∃ t, trace (snapshot_manager exec http_get R group monitor apps s).2 = trace s ++ t
       ∧ Forall (mounts_newest apps) t.
Proof.
  revert s. change (emits (mounts_newest apps) (snapshot_manager exec http_get R group monitor apps)).
  unfold_run. repeat emits_step; simpl; try done; eexists _, _; (split; [eassumption|]);
    (split; [eassumption|]); [by left | right; eauto].
Qed.

(** X3.  Whatever the run does and however it ends, every [zfs rename] it
    issues moves [origin@backup] to [origin@backup-1], or
    [origin@backup-i] to [origin@backup-(i+1)] with [1 <= i <= R-1], for a
    mount of the run.  So when the retention is at least 1 the new name of
    every rename is one of [origin@backup-1 .. origin@backup-R], never a
    generation beyond [R].  (With a retention below 1 the only rename is
    that of [origin@backup] to [origin@backup-1], which is beyond it.) *)
Theorem run_renames_one_up {W} (exec : Cmd → W → Outcome * W)
    (http_get : string → string → string → W → Reply * W)
    (R : Z) (group : list string) (monitor : option string) (apps : list App) (s : State W) :
  ∃ t, trace (snapshot_manager exec http_get R group monitor apps s).2 = trace s ++ t
       ∧ Forall (renames_one_up R apps) t
       ∧ ((1 ≤ R)%Z → Forall (renames_within R apps) t).
Proof.
  assert (emits (renames_one_up R apps) (snapshot_manager exec http_get R group monitor apps))
    as Hem.
  { unfold_run. repeat emits_step; simpl; try done; eexists _, _; (split; [eassumption|]);
      (split; [eassumption|]).
    - right. eexists. split; [by eapply elem_of_range_down|]. done.
    - by left. }
  destruct (Hem s) as (t & E & F). exists t. split; [done|]. split; [done|].
  intros HR. eapply Forall_impl; [exact F|].
  intros [[| |a b| | | | | | |] o|]; try done.
  intros (app & m & Happ & Hm & [[_ ->]|(i & Hi & _ & ->)]).
  - exists app, m, 1%Z. repeat split; [done | done | lia | lia].
  - exists app, m, (i + 1)%Z. repeat split; [done | done | lia | lia].
Qed.

Lemma run_renames_one_up_witness :
  (1 ≤ 2)%Z
  ∧ ∃ t, trace (snapshot_manager zfs no_monitor 2 [] None [blog]
                  (start {| snaps := {["tank/blog@backup"; "tank/blog@backup-1"]};
                            seen := [] |})).2
         = [] ++ t
         ∧ Forall (renames_within 2 [blog]) t.
Proof.
  split; [lia|].
  destruct (run_renames_one_up zfs no_monitor 2 [] None [blog]
              (start {| snaps := {["tank/blog@backup"; "tank/blog@backup-1"]}; seen := [] |}))
    as (t & E & _ & H).
  exists t. split; [exact E | apply H; lia].
Defined.

(** ** Notifications, configuration and the top level *)

Section TopLevel.
Context {W : Type}.
Variable exec : Cmd → W → Outcome * W.
Variable http_get : string → string → string → W → Reply * W.
Variable load : string → W → FileOutcome.

Implicit Types (s : State W).

Lemma send_notification_eval url status msg s :
  ∃ s', send_notification http_get url status msg s
        = (match reply_raises (http_get url status msg (world s)).1 with
           | Some e => Raise e
           | None => Ok tt
           end, s')
        ∧ trace s' = trace s ++ [Requested url status msg (http_get url status msg (world s)).1]
        ∧ world s' = (http_get url status msg (world s)).2.
Proof.
  unfold send_notification, mbind, M_bind, logging, request. simpl.
  destruct (http_get url status msg (world s)) as [r w].
  destruct r as [e| | |[[]|]]; simpl; try (eexists; split; [reflexivity | done]).
  destruct e; simpl; eexists; (split; [reflexivity | done]).
Qed.


(** *** [read_config] *)

Lemma quiet_ret {A} (a : A) : quiet (mret a : M W A).
Proof. by intros s. Qed.

Lemma quiet_raise {A} e : quiet (raise e : M W A).
Proof. by intros s. Qed.

Lemma quiet_logging lvl msg : quiet (logging lvl msg : M W unit).
Proof. by intros s. Qed.

Lemma quiet_bind {A B} (m : M W A) (k : A → M W B) :
  quiet m → (∀ a, quiet (k a)) → quiet (m ≫= k).
Proof.
  intros Hm Hk s. destruct (Hm s) as [Hw Ht]. unfold mbind, M_bind.
  destruct (m s) as [[a|e] s1]; simpl in *; [|done].
  destruct (Hk a s1) as [Hw' Ht']. by rewrite Hw', Ht'.
Qed.

Lemma quiet_subscript {A} key (member : option A) : quiet (subscript key member : M W A).
Proof. destruct member; [apply quiet_ret | apply quiet_raise]. Qed.

Lemma quiet_collect {X Y} (l : list X) (body : X → M W Y) :
  (∀ x, quiet (body x)) → quiet (collect l body).
Proof.
  intros Hb. induction l as [|x l IH]; simpl; [apply quiet_ret|].
  apply quiet_bind; [apply Hb | intros y].
  apply quiet_bind; [apply IH | intros ys; apply quiet_ret].
Qed.

(** X5.  Reading the configuration issues no command and no request,
    whether it succeeds or raises. *)
Theorem read_config_issues_nothing path input_retention input_backup_containers
    input_monitor_url s :
  let r := read_config load path input_retention input_backup_containers input_monitor_url s in
  world r.2 = world s ∧ trace r.2 = trace s.
Proof.
  revert s.
  change (quiet (read_config load path input_retention input_backup_containers
                   input_monitor_url)).
  unfold read_config.
  apply quiet_bind; [apply quiet_logging | intros _].
  apply quiet_bind; [by intros s | intros w].
  destruct (load path w) as [| |toml].
  - apply quiet_bind; [apply quiet_logging | intros _; apply quiet_raise].
  - apply quiet_raise.
  - apply quiet_bind; [apply quiet_subscript | intros table].
    repeat (apply quiet_bind; [apply quiet_logging | intros _]).
    apply quiet_bind; [|intros apps; apply quiet_bind; [apply quiet_logging|intros _; apply quiet_ret]].
    apply quiet_collect. intros app.
    apply quiet_bind; [apply quiet_subscript | intros n].
    apply quiet_bind; [apply quiet_subscript | intros cs].
    apply quiet_bind; [|intros ms; apply quiet_ret].
    apply quiet_collect. intros m.
    apply quiet_bind; [apply quiet_subscript | intros o].
    apply quiet_bind; [apply quiet_subscript | intros d]. apply quiet_ret.
Qed.

Lemma collect_decides {X Y} (l : list X) (body : X → M W Y) (f : X → option Y)
    (K : list string) :
  (∀ x s, match f x with
          | Some y => body x s = (Ok y, s)
          | None => ∃ key, key ∈ K ∧ body x s = (Raise (KeyError key), s)
          end) →
  ∀ s, match mapM f l with
       | Some ys => collect l body s = (Ok ys, s)
       | None => ∃ key, key ∈ K ∧ collect l body s = (Raise (KeyError key), s)
       end.
Proof.
  intros Hb. induction l as [|x l IH]; intros s; [done|].
  cbn [mapM collect]. specialize (Hb x s). specialize (IH s).
  destruct (f x) as [y|].
  - rewrite (bind_Ok _ _ _ _ _ Hb). destruct (mapM f l) as [ys|].
    + by rewrite (bind_Ok _ _ _ _ _ IH).
    + destruct IH as (key & ? & IH). rewrite (bind_Raise _ _ _ _ _ IH). simpl. eauto.
  - destruct Hb as (key & ? & Hb). rewrite (bind_Raise _ _ _ _ _ Hb). simpl. eauto.
Qed.

Lemma mount_body_decides (t : TomlMount) s :
  match mount_of t with
  | Some m =>
      (origin ← subscript "origin" (t_origin t);
       destination ← subscript "destination" (t_destination t);
       mret (Build_Mount origin destination (default [] (t_children t)))) s = (Ok m, s)
  | None =>
      ∃ key, key ∈ ["name"; "containers"; "origin"; "destination"]
             ∧ (origin ← subscript "origin" (t_origin t);
                destination ← subscript "destination" (t_destination t);
                mret (Build_Mount origin destination (default [] (t_children t)))) s
               = (Raise (KeyError key), s)
  end.
Proof.
  clear exec http_get load.
  unfold mount_of. destruct (t_origin t) as [o|], (t_destination t) as [d|]; simpl; try done.
  - exists "destination". split; [set_solver | done].
  - exists "origin". split; [set_solver | done].
  - exists "origin". split; [set_solver | done].
Qed.

(** X6.  Given a file with a [config] table, the configuration read has
    the retention, backup containers and monitor by precedence (value
    passed in, else value of the file, else 14, no containers, no
    monitor) and the apps of the file in file order, each with its name,
    containers and mounts in order, a mount without [children] having
    none.  When an app lacks [name] or [containers], or a mount lacks
    [origin] or [destination], reading raises [KeyError] for one of these
    keys. *)
Theorem read_config_parses path input_retention input_backup_containers
    input_monitor_url s toml table :
  load path (world s) = Parsed toml →
  t_config toml = Some table →
  let r := (read_config load path input_retention input_backup_containers
              input_monitor_url s).1 in
  match mapM app_of (default [] (t_apps toml)) with
  | Some parsed =>
      r = Ok {| retention := default (default 14%Z (t_retention table)) input_retention;
                backup_containers :=
                  default (default [] (t_backup_containers table)) input_backup_containers;
                monitor_url := match input_monitor_url with
                               | Some u => Some u
                               | None => t_monitor_url table
                               end;
                apps := parsed |}
  | None =>
      ∃ key, key ∈ ["name"; "containers"; "origin"; "destination"] ∧ r = Raise (KeyError key)
  end.
Proof.
  clear exec http_get. intros Hl Hc r. subst r. unfold read_config.
  erewrite bind_Ok by reflexivity. erewrite bind_Ok by reflexivity.
  cbn [world]. rewrite Hl, Hc. cbn [subscript].
  erewrite bind_Ok by reflexivity.
  erewrite bind_Ok by reflexivity. erewrite bind_Ok by reflexivity.
  erewrite bind_Ok by reflexivity.
  match goal with
  | |- context [collect ?l ?body] =>
      pose proof (collect_decides l body app_of ["name"; "containers"; "origin"; "destination"])
        as Hcol
  end.
  match type of Hcol with
  | ?P → _ => assert P as Hb
  end.
  { intros t st. unfold app_of.
    destruct (t_name t) as [n|]; cbn [subscript].
    2:{ exists "name". split; [set_solver | done]. }
    erewrite bind_Ok by reflexivity.
    destruct (t_containers t) as [cs|]; cbn [subscript].
    2:{ exists "containers". split; [set_solver | done]. }
    erewrite bind_Ok by reflexivity.
    match goal with
    | |- context [collect ?l ?body] =>
        pose proof (collect_decides l body mount_of
                      ["name"; "containers"; "origin"; "destination"]
                      mount_body_decides st) as Hm
    end.
    destruct (mapM mount_of (default [] (t_mounts t))) as [ms|].
    - by erewrite bind_Ok by exact Hm.
    - destruct Hm as (key & ? & Hm). exists key. split; [done|].
      by erewrite bind_Raise by exact Hm. }
  specialize (Hcol Hb). clear Hb.
  match goal with |- context [(collect ?l ?body ≫= ?k) ?st] => specialize (Hcol st) end.
  destruct (mapM app_of (default [] (t_apps toml))) as [parsed|].
  - erewrite bind_Ok by exact Hcol. by erewrite bind_Ok by reflexivity.
  - destruct Hcol as (key & Hk & Hcol). exists key. split; [done|].
    by erewrite bind_Raise by exact Hcol.
Qed.

(** *** [snapshot_manager_main] and [main] *)

(** X7.  When the configuration file does not exist the run raises
    [RuntimeError] naming the file, and has issued no command and no
    request. *)
Theorem missing_configuration_file (args : Args.t) s :
  load (Args.config args) (world s) = NotAFile →
  let r := snapshot_manager_main exec http_get load args s in
  r.1 = Raise (RuntimeError ("Configuration file " +:+ dq +:+ Args.config args +:+ dq
                             +:+ " does not exist"))
  ∧ world r.2 = world s ∧ trace r.2 = trace s.
Proof.
  intros Hl r. subst r. unfold snapshot_manager_main, read_config.
  unfold mbind, M_bind, logging. cbn [world]. by rewrite Hl.
Qed.

Lemma main_try (args : Args.t) s :
  (0 ≤ Args.verbosity args ≤ 2)%Z →
  ∃ h, main exec http_get load args s
       = try_except (snapshot_manager_main exec http_get load args) h s
       ∧ h KeyboardInterrupt
         = (logging INFO "Keyboard interrupt received";;
            match Args.monitor_url args with
            | Some url => send_notification http_get url "down" "interrupted"
            | None => mret tt
            end)
       ∧ ∀ e, is_Exception e = true →
              h e = (logging ERROR "Unhandled exception";;
                     match Args.monitor_url args with
                     | Some url => send_notification http_get url "down" "exception"
                     | None => mret tt
                     end;;
                     raise e).
Proof.
  intros Hv. eexists. split; [|split].
  - unfold main.
    destruct (Z.eqb_spec (Args.verbosity args) 0); [reflexivity|].
    destruct (Z.eqb_spec (Args.verbosity args) 1); [reflexivity|].
    destruct (Z.eqb_spec (Args.verbosity args) 2); [reflexivity|]. lia.
  - done.
  - by intros [].
Qed.

(** X8.  With a supported verbosity, an [Exception] raised by the run
    reaches the caller of [main].  Without [-m] nothing more is issued;
    with [-m url] exactly one request, [down]/[exception], is sent to
    that url first (and should that notification raise, its exception
    is the one that reaches the caller). *)
Theorem main_reports_exception (args : Args.t) s s1 e :
  (0 ≤ Args.verbosity args ≤ 2)%Z →
  snapshot_manager_main exec http_get load args s = (Raise e, s1) →
  is_Exception e = true →
  let r := main exec http_get load args s in
  match Args.monitor_url args with
  | None => r.1 = Raise e ∧ trace r.2 = trace s1
  | Some url =>
      let reply := (http_get url "down" "exception" (world s1)).1 in
      r.1 = Raise (default e (reply_raises reply))
      ∧ trace r.2 = trace s1 ++ [Requested url "down" "exception" reply]
  end.
Proof.
  intros Hv Hrun He r. subst r.
  destruct (main_try args s Hv) as (h & -> & _ & Hh).
  unfold try_except. rewrite Hrun, (Hh e He).
  erewrite bind_Ok by reflexivity.
  destruct (Args.monitor_url args) as [url|].
  - match goal with
    | |- context [send_notification _ _ _ _ ≫= _] =>
        match goal with
        | |- context [(?m ≫= ?k) ?st] =>
            destruct (send_notification_eval url "down" "exception" st) as (s' & Hn & Ht & _)
        end
    end.
    cbn [world trace] in *. 
    destruct (reply_raises (http_get url "down" "exception" (world s1)).1) as [e'|].
    + by erewrite bind_Raise by exact Hn.
    + by erewrite bind_Ok by exact Hn.
  - by erewrite bind_Ok by reflexivity.
Qed.

(** X9.  With a supported verbosity, a [KeyboardInterrupt] raised by the
    run does not reach the caller: [main] returns normally, after one
    [down]/[interrupted] request when [-m url] was given (unless that
    notification itself raises). *)
Theorem main_swallows_interrupt (args : Args.t) s s1 :
  (0 ≤ Args.verbosity args ≤ 2)%Z →
  snapshot_manager_main exec http_get load args s = (Raise KeyboardInterrupt, s1) →
  let r := main exec http_get load args s in
  match Args.monitor_url args with
  | None => r.1 = Ok tt ∧ trace r.2 = trace s1
  | Some url =>
      let reply := (http_get url "down" "interrupted" (world s1)).1 in
      r.1 = match reply_raises reply with
            | Some e => Raise e
            | None => Ok tt
            end
      ∧ trace r.2 = trace s1 ++ [Requested url "down" "interrupted" reply]
  end.
Proof.
  intros Hv Hrun r. subst r.
  destruct (main_try args s Hv) as (h & -> & Hh & _).
  unfold try_except. rewrite Hrun, Hh.
  erewrite bind_Ok by reflexivity.
  destruct (Args.monitor_url args) as [url|]; [|done].
  match goal with
  | |- context [send_notification _ ?u ?a ?b ?st] =>
      destruct (send_notification_eval u a b st) as (s' & -> & Ht & _)
  end.
  done.
Qed.

(** X10.  A verbosity other than 0, 1 or 2 makes [main] raise
    [RuntimeError] at once: nothing is read, issued, logged or notified,
    whatever else the command line says. *)
Theorem main_rejects_verbosity (args : Args.t) s :
  ¬ (0 ≤ Args.verbosity args ≤ 2)%Z →
  main exec http_get load args s
  = (Raise (RuntimeError ("Unsupported log level " +:+ pretty (Args.verbosity args)
                          +:+ ". 0 for WARNING, 1 for INFO, 2 for DEBUG")), s).
Proof.
  intros Hv. unfold main.
  destruct (Z.eqb_spec (Args.verbosity args) 0); [lia|].
  destruct (Z.eqb_spec (Args.verbosity args) 1); [lia|].
  destruct (Z.eqb_spec (Args.verbosity args) 2); [lia|]. done.
Qed.

End TopLevel.

Lemma read_config_parses_witness :
  (read_config blog_file "config.toml" (Some 3%Z) None None (start tt)).1
  = Ok {| retention := 3; backup_containers := [];
          monitor_url := Some "http://kuma/push"; apps := [web_blog] |}.
Proof.
  exact (read_config_parses blog_file "config.toml" (Some 3%Z) None None (start tt)
           blog_toml _ eq_refl eq_refl).
Defined.

Lemma missing_configuration_file_witness :
  let args := {| Args.config := "nowhere.toml"; Args.retention := None;
                 Args.backup_containers := None; Args.monitor_url := None;
                 Args.verbosity := 0 |} in
  let r := snapshot_manager_main (scripted fresh_host) silent blog_file args (start tt) in
  r.1 = Raise (RuntimeError ("Configuration file " +:+ dq +:+ "nowhere.toml" +:+ dq
                             +:+ " does not exist"))
  ∧ world r.2 = tt ∧ trace r.2 = [].
Proof.
  intros args.
  apply (missing_configuration_file (scripted fresh_host) silent blog_file args (start tt)).
  reflexivity.
Defined.

Lemma main_reports_exception_witness :
  let r := main (scripted stop_fails) silent blog_file args_plain (start tt) in
  r.1 = Raise (RuntimeError "Failed to stop blog container(s)")
  ∧ trace r.2
    = trace (snapshot_manager_main (scripted stop_fails) silent blog_file args_plain
               (start tt)).2.
Proof.
  apply (main_reports_exception (scripted stop_fails) silent blog_file args_plain (start tt)
           (snapshot_manager_main (scripted stop_fails) silent blog_file args_plain
              (start tt)).2
           (RuntimeError "Failed to stop blog container(s)")).
  - simpl. lia.
  - vm_compute. reflexivity.
  - reflexivity.
Defined.

Lemma main_swallows_interrupt_witness :
  let r := main (scripted interrupted_at_stop) silent blog_file args_plain (start tt) in
  r.1 = Ok tt
  ∧ trace r.2
    = trace (snapshot_manager_main (scripted interrupted_at_stop) silent blog_file args_plain
               (start tt)).2.
Proof.
  apply (main_swallows_interrupt (scripted interrupted_at_stop) silent blog_file args_plain
           (start tt)
           (snapshot_manager_main (scripted interrupted_at_stop) silent blog_file args_plain
              (start tt)).2).
  - simpl. lia.
  - vm_compute. reflexivity.
Defined.

Lemma main_rejects_verbosity_witness :
  main (scripted fresh_host) silent blog_file args_vvv (start tt)
  = (Raise (RuntimeError ("Unsupported log level " +:+ pretty 3%Z
                          +:+ ". 0 for WARNING, 1 for INFO, 2 for DEBUG")), start tt).
Proof.
  apply (main_rejects_verbosity (scripted fresh_host) silent blog_file args_vvv (start tt)).
  simpl. lia.
Defined.

(** ** What the plan of a run tells about its events *)

Lemma follows_events p r t :
  follows p r t → ∀ c o, In (Ran c o) t → In c (plan_cmds p).
Proof.
  unfold plan_cmds. induction 1 as [|c rest r t H IH|c rest rc msg Hrc|c rest e
                    |probe body rest rc r t Hrc H IH|probe body rest r t H IH
                    |probe body rest e|url st msg rest reply r t Hr H IH
                    |url st msg rest reply e Hr]; intros c' o' Hin; simpl in *.
  - done.
  - destruct Hin as [[= <- <-]|Hin]; [by left | right; eauto].
  - destruct Hin as [[= <- <-]|[]]. by left.
  - destruct Hin as [[= <- <-]|[]]. by left.
  - destruct Hin as [[= <- <-]|Hin]; [by left|]. right. apply in_app_iff. right. eauto.
  - destruct Hin as [[= <- <-]|Hin]; [by left|]. right.
    rewrite <- flat_map_app. eauto.
  - destruct Hin as [[= <- <-]|[]]. by left.
  - destruct Hin as [[=]|Hin]. eauto.
  - destruct Hin as [[=]|[]].
Qed.

Lemma follows_Ok_went_well p t :
  follows p (Ok tt) t →
  Forall (λ e, match e with
               | Ran c (Exit rc) => rc = 0%Z ∨ In c (plan_probes p)
               | Ran _ (Throw _) => False
               | Requested _ _ _ reply => reply_raises reply = None
               end) t.
Proof.
  unfold plan_probes. intros H. remember (Ok tt) as r eqn:Er.
  induction H as [|c rest r t H IH| | |probe body rest rc r t Hrc H IH
                  |probe body rest r t H IH| |url st msg rest reply r t Hr H IH|];
    try discriminate; simpl.
  - constructor.
  - constructor; [by left | auto].
  - constructor; [right; by left|]. eapply Forall_impl; [by apply IH|].
    intros [c' [rc'|e']|] He; try done. destruct He as [?|?]; [by left|].
    right. right. apply in_app_iff. by right.
  - constructor; [by left|]. eapply Forall_impl; [by apply IH|].
    intros [c' [rc'|e']|] He; try done. destruct He as [?|He]; [by left|].
    right. right. by rewrite <- flat_map_app.
  - constructor; [done | auto].
Qed.

Lemma follows_Raise_split p1 p2 e t :
  follows (p1 ++ p2) (Raise e) t →
  follows p1 (Raise e) t
  ∨ ∃ t1 t2, t = t1 ++ t2 ∧ follows p1 (Ok tt) t1 ∧ follows p2 (Raise e) t2.
Proof.
  intros H. remember (p1 ++ p2) as p eqn:Ep. remember (Raise e) as r eqn:Er.
  revert p1 p2 Ep.
  induction H as [|c rest r t H IH|c rest rc msg Hrc|c rest e'
                  |probe body rest rc r t Hrc H IH|probe body rest r t H IH
                  |probe body rest e'|url st msg rest reply r t Hr H IH
                  |url st msg rest reply e' Hr];
    intros p1 p2 Ep; try discriminate; try subst r.
  - destruct p1 as [|x p1]; simpl in Ep.
    + subst p2. right. exists [], (Ran c (Exit 0) :: t). repeat split; constructor; done.
    + injection Ep as <- ->. destruct (IH eq_refl p1 p2 eq_refl) as [F|(t1 & t2 & -> & F1 & F2)].
      * left. by constructor.
      * right. exists (Ran c (Exit 0) :: t1), t2. repeat split; [by constructor | done].
  - destruct p1 as [|x p1]; simpl in Ep.
    + subst p2. right. exists [], [Ran c (Exit rc)]. repeat split; constructor; done.
    + injection Ep as <- ->. left. by constructor.
  - destruct p1 as [|x p1]; simpl in Ep.
    + subst p2. right. exists [], [Ran c (Throw e')]. repeat split; constructor; done.
    + injection Ep as <- ->. left. constructor.
  - destruct p1 as [|x p1]; simpl in Ep.
    + subst p2. right. exists [], (Ran probe (Exit rc) :: t). repeat split; constructor; done.
    + injection Ep as <- ->. destruct (IH eq_refl p1 p2 eq_refl) as [F|(t1 & t2 & -> & F1 & F2)].
      * left. by constructor.
      * right. exists (Ran probe (Exit rc) :: t1), t2. repeat split; [by constructor | done].
  - destruct p1 as [|x p1]; simpl in Ep.
    + subst p2. right. exists [], (Ran probe (Exit 0) :: t). repeat split; constructor; done.
    + injection Ep as <- ->.
      destruct (IH eq_refl (body ++ p1) p2) as [F|(t1 & t2 & -> & F1 & F2)];
        [by rewrite app_assoc | |].
      * left. by constructor.
      * right. exists (Ran probe (Exit 0) :: t1), t2. repeat split; [by constructor | done].
  - destruct p1 as [|x p1]; simpl in Ep.
    + subst p2. right. exists [], [Ran probe (Throw e')]. repeat split; constructor; done.
    + injection Ep as <- ->. left. constructor.
  - destruct p1 as [|x p1]; simpl in Ep.
    + subst p2. right. exists [], (Requested url st msg reply :: t).
      repeat split; constructor; done.
    + injection Ep as <- ->. destruct (IH eq_refl p1 p2 eq_refl) as [F|(t1 & t2 & -> & F1 & F2)].
      * left. by constructor.
      * right. exists (Requested url st msg reply :: t1), t2.
        repeat split; [by constructor | done].
  - destruct p1 as [|x p1]; simpl in Ep.
    + subst p2. right. exists [], [Requested url st msg reply]. repeat split; constructor; done.
    + injection Ep as <- ->. left. by constructor.
Qed.

Lemma Forall_flat_map_app {A B} (Q : B → Prop) (h : A → list B) (l1 l2 : list A) :
  Forall Q (flat_map h l1) → Forall Q (flat_map h l2) → Forall Q (flat_map h (l1 ++ l2)).
Proof. intros H1 H2. rewrite flat_map_app. by apply Forall_app. Qed.

Lemma Forall_flat_map_concat {A B X} (Q : B → Prop) (h : A → list B) (f : X → list A)
    (l : list X) :
  (∀ x, Forall Q (flat_map h (f x))) → Forall Q (flat_map h (concat (map f l))).
Proof.
  intros Hf. induction l as [|x l IH]; simpl; [constructor|].
  by apply Forall_flat_map_app.
Qed.

Lemma Forall_flat_map_map {A B X} (Q : B → Prop) (h : A → list B) (f : X → A) (l : list X) :
  (∀ x, Forall Q (h (f x))) → Forall Q (flat_map h (map f l)).
Proof.
  intros Hf. induction l as [|x l IH]; simpl; [constructor|].
  apply Forall_app. by split.
Qed.

Lemma archive_plan_probes m R : Forall is_probe (plan_probes (archive_plan m R)).
Proof.
  unfold plan_probes, archive_plan.
  apply Forall_flat_map_app; [by repeat constructor|].
  apply Forall_flat_map_app; [|by repeat constructor].
  apply Forall_flat_map_map. intros i. by repeat constructor.
Qed.

Lemma cycle_plan_probes R group monitor apps :
  Forall is_probe (plan_probes (cycle_plan R group monitor apps)).
Proof.
  unfold plan_probes, cycle_plan.
  apply Forall_flat_map_app; [by destruct monitor; repeat constructor|].
  apply Forall_flat_map_app.
  { apply Forall_flat_map_concat. intros app. unfold snapshot_phase.
    apply Forall_flat_map_app;
      [apply Forall_flat_map_concat; intros m; apply archive_plan_probes|].
    apply Forall_flat_map_app; [by destruct (containers app); repeat constructor|].
    apply Forall_flat_map_app; [|by destruct (containers app); repeat constructor].
    apply Forall_flat_map_map. intros m. constructor. }
  apply Forall_flat_map_app; [by destruct group; repeat constructor|].
  apply Forall_flat_map_app.
  { apply Forall_flat_map_concat. intros app. unfold remount_phase.
    apply Forall_flat_map_concat. intros m. unfold republish_plan, unmount_plan, mount_plan.
    apply Forall_flat_map_app.
    - simpl. constructor; [done|]. rewrite app_nil_r.
      apply Forall_flat_map_app; [|by repeat constructor].
      apply Forall_flat_map_map. intros child. by repeat constructor.
    - apply (Forall_flat_map_app _ _ [_; _]); [by repeat constructor|].
      apply Forall_flat_map_map. intros child. constructor. }
  apply Forall_flat_map_app; [by destruct group; repeat constructor|].
  apply Forall_flat_map_app; [|by destruct monitor; repeat constructor].
  apply Forall_flat_map_concat. intros app. unfold prune_phase.
  apply Forall_flat_map_concat. intros m. by repeat constructor.
Qed.

(** X11.  When a run returns normally, every command it issued returned
    0, except the existence checks ([zfs list]) and the mount-point
    checks, whose answer only decides what is done next; no command raised
    and no notification raised. *)
Theorem success_means_every_command_succeeded {W} (exec : Cmd → W → Outcome * W)
    (http_get : string → string → string → W → Reply * W)
    (R : Z) (group : list string) (monitor : option string) (apps : list App)
    (s s' : State W) :
  snapshot_manager exec http_get R group monitor apps s = (Ok tt, s') →
  ∃ t, trace s' = trace s ++ t ∧ Forall went_well t.
Proof.
  intros H. destruct (snapshot_manager_performs exec http_get R group monitor apps s)
    as (t & E & F).
  rewrite H in E, F. simpl in E, F. exists t. split; [done|].
  apply follows_Ok_went_well in F.
  pose proof (cycle_plan_probes R group monitor apps) as Hp. rewrite Forall_forall in Hp.
  eapply Forall_impl; [exact F|]. intros [c [rc|e]|] He; try done.
  destruct He as [?|Hin]; [by left | right; by apply Hp, list_elem_of_In].
Qed.

Lemma success_means_every_command_succeeded_witness :
  ∃ t, trace (snapshot_manager (scripted fresh_host) silent 2 [] None [blog] (start tt)).2
       = [] ++ t
       ∧ Forall went_well t.
Proof.
  apply (success_means_every_command_succeeded (scripted fresh_host) silent 2 [] None [blog]
           (start tt)).
  vm_compute. reflexivity.
Defined.

(** X12.  When [do_snapshot] raises, it has not started the app's
    containers: no [docker start] that returned 0 is among its events,
    also when the failure came after the containers were stopped. *)
Theorem failed_snapshot_never_restarts {W} (exec : Cmd → W → Outcome * W)
    (app : App) (R : Z) (s : State W) (e : exn) :
  (do_snapshot exec app R s).1 = Raise e →
  ∃ t, trace (do_snapshot exec app R s).2 = trace s ++ t
       ∧ ∀ l, ¬ In (Ran (DockerStart l) (Exit 0)) t.
Proof.
  intros Hr. destruct (do_snapshot_performs exec app R s) as (t & E & F).
  exists t. split; [done|]. rewrite Hr in F. unfold snapshot_phase in F.
  rewrite !app_assoc in F.
  set (prefix := (concat (map (λ m, archive_plan m R) (mounts app))
                  ++ stop_plan (containers app))
                 ++ map (λ m, Must (ZfsSnapshot (backup (origin m)))) (mounts app)) in F.
  assert (Forall (λ c, ∀ l, c ≠ DockerStart l) (plan_cmds prefix)) as Hpre.
  { unfold plan_cmds, prefix. apply Forall_flat_map_app; [apply Forall_flat_map_app|].
    - apply Forall_flat_map_concat. intros m. unfold archive_plan.
      apply Forall_flat_map_app; [by repeat constructor|].
      apply Forall_flat_map_app; [|by repeat constructor].
      apply Forall_flat_map_map. intros i. by repeat constructor.
    - by destruct (containers app); repeat constructor.
    - apply Forall_flat_map_map. intros m. by repeat constructor. }
  rewrite Forall_forall in Hpre.
  assert (∀ r t1 l, follows prefix r t1 → ¬ In (Ran (DockerStart l) (Exit 0)) t1) as Hno.
  { intros r t1 l F1 Hin. apply (follows_events _ _ _ F1) in Hin.
    by apply (Hpre _ (proj2 (list_elem_of_In _ _) Hin) l). }
  intros l Hin. apply follows_Raise_split in F as [F|(t1 & t2 & -> & F1 & F2)].
  - by apply (Hno _ _ l F).
  - apply in_app_iff in Hin as [Hin|Hin]; [by apply (Hno _ _ l F1)|].
    unfold start_plan in F2. destruct (containers app); inversion F2; subst.
    + match goal with H : follows [] (Raise _) _ |- _ => inversion H end.
    + destruct Hin as [[= _ ?]|[]]. done.
    + by destruct Hin as [[=]|[]].
Qed.

Lemma failed_snapshot_never_restarts_witness :
  ∃ t, trace (do_snapshot (scripted snapshot_fails) web_blog 2 (start tt)).2 = [] ++ t
       ∧ ∀ l, ¬ In (Ran (DockerStart l) (Exit 0)) t.
Proof.
  apply (failed_snapshot_never_restarts (scripted snapshot_fails) web_blog 2 (start tt)
           (RuntimeError "Failed to create blog tank/blog snapshot")).
  vm_compute. reflexivity.
Defined.

(** ** Errors are announced *)

Section Loud.
Context {W : Type}.
Variable exec : Cmd → W → Outcome * W.
Variable http_get : string → string → string → W → Reply * W.
Variable load : string → W → FileOutcome.











End Loud.




(** ** More on rotation on the snapshot store *)

(** X14.  On the snapshot store, for every state and every retention
    [R >= 1], archive succeeds and advances the ring by one: afterwards
    [origin@backup] does not exist, [origin@backup-1] exists exactly when
    [origin@backup] did, [origin@backup-(i+1)] exists exactly when
    [origin@backup-i] did ([1 <= i <= R-1]), and every snapshot outside
    the ring is where it was. *)
Theorem archive_advances_ring (m : Mount) (app_name : string) (cs : list string) (R : Z)
    (s : State Store) :
  (1 ≤ R)%Z →
  let app := {| name := app_name; containers := cs; mounts := [m] |} in
  let vol := origin m in
  ∃ s1, archive_snapshots zfs app R s = (Ok tt, s1)
        ∧ (backup vol ∉ snaps (world s1))
        ∧ (backup_n vol 1 ∈ snaps (world s1) ↔ backup vol ∈ snaps (world s))
        ∧ (∀ i : Z, (1 ≤ i ≤ R - 1)%Z →
             (backup_n vol (i + 1) ∈ snaps (world s1) ↔ backup_n vol i ∈ snaps (world s)))
        ∧ (∀ x, x ≠ backup vol → (∀ i : Z, (1 ≤ i ≤ R)%Z → x ≠ backup_n vol i) →
             (x ∈ snaps (world s1) ↔ x ∈ snaps (world s))).
Proof.
  intros HR app vol.
  destruct (archive_snapshots_store m app_name cs R _ HR s eq_refl) as (s1 & E1 & X1).
  exists s1. split; [done|]. rewrite X1. fold vol. split; [by apply backup_not_archived|].
  split; [|split].
  - rewrite elem_of_archived by done. split.
    + intros [(_ & _ & Hall)|[(i & Hi & E%backup_n_inj & _)|[_ ?]]]; [|lia|done].
      destruct (Hall 1%Z); [lia | done].
    + intros ?. by right; right.
  - intros i Hi. rewrite elem_of_archived by done. split.
    + intros [(_ & _ & Hall)|[(j & Hj & E%backup_n_inj & Hin)|[E%backup_n_inj _]]];
        [|by replace i with j by lia|lia].
      destruct (Hall (i + 1)%Z); [lia | done].
    + intros Hin. right; left. by exists i.
  - intros x Hcur Hall. rewrite elem_of_archived by done. split.
    + intros [(? & _)|[(i & Hi & -> & _)|[-> _]]]; [done| |].
      * destruct (Hall (i + 1)%Z); [lia | done].
      * destruct (Hall 1%Z); [lia | done].
    + intros Hx. by left.
Qed.

Lemma archive_advances_ring_witness :
  (1 ≤ 2)%Z
  ∧ ∃ s1, archive_snapshots zfs blog 2
            (start {| snaps := {["tank/blog@backup"; "tank/blog@backup-1"]}; seen := [] |})
          = (Ok tt, s1)
          ∧ backup "tank/blog" ∉ snaps (world s1).
Proof.
  split; [lia|].
  destruct (archive_advances_ring blog_mount "blog" [] 2
              (start {| snaps := {["tank/blog@backup"; "tank/blog@backup-1"]}; seen := [] |}))
    as (s1 & E & H & _); [lia|].
  exists s1. split; [exact E | exact H].
Defined.

(** X15.  On the snapshot store, for every retention [R >= 1] a cycle
    succeeds from every state, also one left behind by an interrupted
    run: afterwards [origin@backup] exists, [origin@backup-R] does not,
    and every snapshot outside the ring is where it was. *)
Theorem cycle_restores_bound (m : Mount) (app_name : string) (cs group : list string)
    (monitor : option string) (R : Z) (w : Store) :
  (1 ≤ R)%Z →
  let app := {| name := app_name; containers := cs; mounts := [m] |} in
  let vol := origin m in
  ∃ w', cycle R group monitor app w = (Ok tt, w')
        ∧ (backup vol ∈ snaps w')
        ∧ (backup_n vol R ∉ snaps w')
        ∧ (∀ x, x ≠ backup vol → (∀ i : Z, (1 ≤ i ≤ R)%Z → x ≠ backup_n vol i) →
             (x ∈ snaps w' ↔ x ∈ snaps w)).
Proof.
  intros HR app vol.
  destruct (cycle_store m app_name cs R group monitor w HR) as (w' & E & Hw').
  exists w'. split; [done|]. rewrite Hw'. fold vol. split; [|split].
  - apply elem_of_difference. split; [set_solver|].
    rewrite elem_of_singleton. apply not_eq_sym, backup_not_gen.
  - set_solver.
  - intros x Hcur Hall.
    rewrite elem_of_difference, elem_of_union, !elem_of_singleton, elem_of_archived by done.
    split.
    + intros [[[(? & _)|[(i & Hi & -> & _)|[-> _]]]|?] _]; [done| | |done].
      * destruct (Hall (i + 1)%Z); [lia | done].
      * destruct (Hall 1%Z); [lia | done].
    + intros Hx. split; [left; by left | apply Hall; lia].
Qed.

Lemma cycle_restores_bound_witness :
  (1 ≤ 1)%Z
  ∧ ∃ w', cycle 1 [] None blog
            {| snaps := {["tank/blog@backup-1"; "tank/blog@manual"]}; seen := [] |}
          = (Ok tt, w')
          ∧ backup "tank/blog" ∈ snaps w'
          ∧ backup_n "tank/blog" 1 ∉ snaps w'.
Proof.
  split; [lia|].
  destruct (cycle_restores_bound blog_mount "blog" [] [] None 1
              {| snaps := {["tank/blog@backup-1"; "tank/blog@manual"]}; seen := [] |})
    as (w' & E & H1 & H2 & _); [lia|].
  exists w'. split; [exact E|]. split; [exact H1 | exact H2].
Defined.

(** X16.  On the snapshot store, for every retention [R >= 1] and every
    number [n >= 1] of cycles from the empty store, all cycles succeed and
    leave [origin@backup] and [origin@backup-1 .. origin@backup-k] with
    [k] the smaller of [n-1] and [R-1]: the history grows by one
    generation per cycle until it holds [R-1] archived generations, and
    stays there. *)
Theorem history_grows_then_stays (m : Mount) (app_name : string) (cs group : list string)
    (monitor : option string) (R : Z) (n : nat) :
  (1 ≤ R)%Z → (1 ≤ n)%nat →
  let app := {| name := app_name; containers := cs; mounts := [m] |} in
  ∃ w', cycles n R group monitor app empty_store = Some w'
        ∧ ∀ x, x ∈ snaps w' ↔
               x = backup (origin m)
               ∨ ∃ i : Z, (1 ≤ i ≤ Z.min (Z.of_nat n - 1) (R - 1))%Z
                          ∧ x = backup_n (origin m) i.
Proof.
  intros HR Hn app. subst app. destruct n as [|n]; [lia|]. cbn [cycles].
  destruct (cycle_store m app_name cs R group monitor empty_store HR) as (w1 & -> & H1).
  cbn [snaps empty_store] in H1. rewrite cycled_empty in H1 by done.
  destruct (cycles_gens m app_name cs R group monitor n 0 w1 HR ltac:(lia) H1)
    as (w' & E & H').
  exists w'. split; [done|]. intros x.
  rewrite H', elem_of_union, elem_of_singleton, elem_of_gens.
  by replace (Z.of_nat ((0 + n) `min` Z.to_nat (R - 1)))
    with (Z.min (Z.of_nat (S n) - 1) (R - 1)) by lia.
Qed.

Lemma history_grows_then_stays_witness :
  (1 ≤ 3)%Z ∧ (1 ≤ 10)%nat
  ∧ ∃ w', cycles 10 3 [] None blog empty_store = Some w'
          ∧ ∀ x, x ∈ snaps w' ↔
                 x = backup "tank/blog"
                 ∨ ∃ i : Z, (1 ≤ i ≤ Z.min (Z.of_nat 10 - 1) (3 - 1))%Z
                            ∧ x = backup_n "tank/blog" i.
Proof.
  split; [lia|]. split; [lia|].
  apply (history_grows_then_stays blog_mount "blog" [] [] None 3 10); lia.
Defined.

(** *** A retention that is not positive *)

Lemma store_raises_seq_l (m k : M Store unit) X e :
  store_raises m X e → store_raises (m;; k) X e.
Proof.
  intros Hm s HX. destruct (Hm s HX) as (s' & E). exists s'.
  by rewrite (bind_Raise _ _ _ _ _ E).
Qed.

Lemma store_raises_seq_r (m k : M Store unit) X Y e :
  store_step m X Y → store_raises k Y e → store_raises (m;; k) X e.
Proof.
  intros Hm Hk s HX. destruct (Hm s HX) as (s1 & E1 & H1).
  destruct (Hk s1 H1) as (s' & E2). exists s'. by rewrite (bind_Ok _ _ _ _ _ E1).
Qed.

Lemma rename_collides a b lvl msg msg' (X : gset string) :
  b ∈ X →
  store_raises (rc ← run zfs (ZfsRename a b);
                if negb (rc =? 0)%Z then logging lvl msg;; raise (RuntimeError msg')
                else mret tt) X (RuntimeError msg').
Proof.
  intros Hb s HX.
  assert (zfs (ZfsRename a b) (world s) = (Exit 1, visit (world s) (snaps (world s)))) as E.
  { simpl. rewrite bool_decide_eq_false_2; [done|]. rewrite HX. by intros [_ ?]. }
  rewrite (bind_Ok _ _ _ _ _ (run_Exit zfs _ _ _ _ E)). cbn [Z.eqb negb].
  erewrite bind_Ok by reflexivity. by eexists.
Qed.

Lemma store_exists_raises n (body : M Store unit) (X : gset string) e :
  n ∈ X → store_raises body X e →
  store_raises (rc ← run zfs (ZfsList n); if (rc =? 0)%Z then body else mret tt) X e.
Proof.
  intros Hn Hb s HX.
  assert (zfs (ZfsList n) (world s) = (Exit 0, visit (world s) X)) as E
    by (simpl; by rewrite HX, bool_decide_eq_true_2).
  rewrite (bind_Ok _ _ _ _ _ (run_Exit zfs _ _ _ _ E)). by apply Hb.
Qed.

Lemma rename_mount_snapshots_nothing m app_name R (X : gset string) :
  (R ≤ 1)%Z → store_step (rename_mount_snapshots zfs m app_name R) X X.
Proof.
  intros HR. unfold rename_mount_snapshots. rewrite range_down_countdown.
  replace (Z.to_nat (R - 1)) with 0%nat by lia. apply store_ret.
Qed.

Lemma archive_nonpositive_store m app_name cs R (X : gset string) :
  (R ≤ 0)%Z →
  backup_n (origin m) 1 ∉ X →
  store_step (archive_snapshots zfs {| name := app_name; containers := cs; mounts := [m] |} R)
             X (renamed (backup (origin m)) (backup_n (origin m) 1)
                        (X ∖ {[backup_n (origin m) R]})).
Proof.
  intros HR Hfree. unfold archive_snapshots. cbn [mounts name for_each].
  eapply store_seq; [|apply store_ret].
  eapply store_seq; [apply remove_mount_last_snapshot_store|].
  eapply store_seq; [apply rename_mount_snapshots_nothing; lia|].
  apply store_exists.
  - intros Hin. apply store_logging_seq, (rename_store _ _ _ _ _ _ Hin). set_solver.
  - intros Hout. by rewrite renamed_absent.
Qed.

Lemma archive_nonpositive_raises m app_name cs R (X : gset string) :
  (R ≤ 0)%Z →
  backup (origin m) ∈ X → backup_n (origin m) 1 ∈ X →
  store_raises (archive_snapshots zfs {| name := app_name; containers := cs; mounts := [m] |} R)
               X (RuntimeError ("Failed to rename " +:+ app_name +:+ " " +:+ origin m
                                +:+ " snapshot")).
Proof.
  intros HR Hcur Hone. unfold archive_snapshots. cbn [mounts name for_each].
  apply store_raises_seq_l.
  eapply store_raises_seq_r; [apply remove_mount_last_snapshot_store|].
  eapply store_raises_seq_r; [apply rename_mount_snapshots_nothing; lia|].
  assert (backup (origin m) ≠ backup_n (origin m) R) by apply backup_ne_backup_n.
  assert (backup_n (origin m) 1 ≠ backup_n (origin m) R) by (intros E%backup_n_inj; lia).
  apply store_exists_raises; [set_solver|].
  eapply store_raises_seq_r; [apply store_logging|].
  apply rename_collides. set_solver.
Qed.

Lemma snapshot_manager_store_from m app_name cs R group monitor (X Y : gset string) :
  store_step (archive_snapshots zfs {| name := app_name; containers := cs; mounts := [m] |} R)
             X Y →
  backup (origin m) ∉ Y →
  store_step
    (snapshot_manager zfs no_monitor R group monitor
       [ {| name := app_name; containers := cs; mounts := [m] |} ])
    X ((Y ∪ {[backup (origin m)]}) ∖ {[backup_n (origin m) R]}).
Proof.
  intros Harch Hfree. unfold snapshot_manager. cbn [for_each].
  apply store_logging_seq.
  eapply store_seq; [apply notify_store|].
  eapply store_seq.
  { eapply store_seq; [|apply store_ret]. unfold do_snapshot.
    apply store_logging_seq.
    eapply store_seq; [exact Harch|].
    eapply store_seq; [apply store_if_truthy, stop_containers_store|].
    eapply store_seq; [by apply snapshot_mounts_store|].
    apply store_if_truthy, start_containers_store. }
  eapply store_seq; [apply store_if_truthy, stop_backup_containers_store|].
  eapply store_seq; [eapply store_seq; [apply do_mount_store | apply store_ret]|].
  eapply store_seq; [apply store_if_truthy, start_backup_containers_store|].
  eapply store_seq.
  { eapply store_seq; [|apply store_ret]. unfold remove_last_snapshot.
    cbn [mounts name for_each]. apply store_logging_seq.
    eapply store_seq; [apply remove_mount_last_snapshot_store | apply store_ret]. }
  eapply store_seq; [apply notify_store | apply store_logging].
Qed.

Lemma snapshot_manager_raises_from m app_name cs R group monitor (X : gset string) e :
  store_raises (archive_snapshots zfs {| name := app_name; containers := cs; mounts := [m] |} R)
               X e →
  store_raises
    (snapshot_manager zfs no_monitor R group monitor
       [ {| name := app_name; containers := cs; mounts := [m] |} ]) X e.
Proof.
  intros Harch. unfold snapshot_manager. cbn [for_each].
  eapply store_raises_seq_r; [apply store_logging|].
  eapply store_raises_seq_r; [apply notify_store|].
  apply store_raises_seq_l, store_raises_seq_l. unfold do_snapshot.
  eapply store_raises_seq_r; [apply store_logging|].
  by apply store_raises_seq_l.
Qed.

(** X17.  A retention of 0 or less is accepted but does not work: on the
    snapshot store, starting with no snapshots, the first two cycles
    succeed and the third raises [RuntimeError], because archive then
    renames [origin@backup] to [origin@backup-1] while the
    [origin@backup-1] of the cycle before is still there (nothing ever
    moves or destroys it). *)
Theorem nonpositive_retention_fails (m : Mount) (app_name : string) (cs group : list string)
    (monitor : option string) (R : Z) :
  (R ≤ 0)%Z →
  let app := {| name := app_name; containers := cs; mounts := [m] |} in
  ∃ w2, cycles 2 R group monitor app empty_store = Some w2
        ∧ (cycle R group monitor app w2).1
          = Raise (RuntimeError ("Failed to rename " +:+ app_name +:+ " " +:+ origin m
                                 +:+ " snapshot")).
Proof.
  intros HR app. subst app.
  set (cur := backup (origin m)). set (one := backup_n (origin m) 1).
  set (old := backup_n (origin m) R).
  assert (cur ≠ old) as Hco by apply backup_ne_backup_n.
  assert (cur ≠ one) as Hc1 by apply backup_ne_backup_n.
  assert (one ≠ old) as H1o by (intros E%backup_n_inj; lia).
  assert (∀ X, cur ∉ renamed cur one X) as Hgone.
  { intros X. rewrite elem_of_renamed. by intros [[_ ?]|[? _]]. }
  (* first cycle *)
  destruct (snapshot_manager_store_from m app_name cs R group monitor ∅ _
              (archive_nonpositive_store m app_name cs R ∅ HR ltac:(set_solver))
              (Hgone _) (start empty_store) eq_refl) as (s1 & E1 & X1).
  assert (cur ∈ snaps (world s1) ∧ one ∉ snaps (world s1)) as [Hcur1 Hone1].
  { rewrite X1. fold cur one old. split; [set_solver|].
    rewrite elem_of_difference, elem_of_union, elem_of_renamed. set_solver. }
  (* second cycle *)
  destruct (snapshot_manager_store_from m app_name cs R group monitor _ _
              (archive_nonpositive_store m app_name cs R _ HR Hone1)
              (Hgone _) (start (world s1)) eq_refl) as (s2 & E2 & X2).
  assert (cur ∈ snaps (world s2) ∧ one ∈ snaps (world s2)) as [Hcur2 Hone2].
  { rewrite X2. fold cur one old. split; [set_solver|].
    rewrite elem_of_difference, elem_of_union, elem_of_renamed. set_solver. }
  (* third cycle *)
  destruct (snapshot_manager_raises_from m app_name cs R group monitor _ _
              (archive_nonpositive_raises m app_name cs R _ HR Hcur2 Hone2)
              (start (world s2)) eq_refl) as (s3 & E3).
  exists (world s2). split.
  - cbn [cycles]. unfold cycle. rewrite E1. cbn [fst snd]. by rewrite E2.
  - unfold cycle. by rewrite E3.
Qed.

Lemma nonpositive_retention_fails_witness :
  (0 ≤ 0)%Z
  ∧ ∃ w2, cycles 2 0 [] None blog empty_store = Some w2
          ∧ (cycle 0 [] None blog w2).1
            = Raise (RuntimeError ("Failed to rename " +:+ "blog" +:+ " " +:+ "tank/blog"
                                   +:+ " snapshot")).
Proof.
  split; [lia|]. apply (nonpositive_retention_fails blog_mount "blog" [] [] None 0). lia.
Defined.

(** ** Republication and pruning on their own *)

(** X18.  Republishing touches nothing but mounts: whatever happens,
    [do_mount] issues only [mountpoint], [umount], [mkdir] and [mount];
    it never creates, renames or destroys a snapshot, never stops or
    starts a container and makes no request. *)
Theorem do_mount_only_mounts {W} (exec : Cmd → W → Outcome * W) (app : App) (s : State W) :
  ∃ t, trace (do_mount exec app s).2 = trace s ++ t ∧ Forall is_mount_command t.
Proof.
  revert s. change (emits is_mount_command (do_mount exec app)).
  unfold do_mount, unmount_mount, mount_mount. repeat emits_step; done.
Qed.

(** X19.  On the snapshot store, pruning an app succeeds from every
    state, for any number of mounts and any retention, and removes
    exactly the [origin@backup-R] of each of its mounts. *)
Theorem prune_removes_exactly_last (app : App) (R : Z) (s : State Store) :
  ∃ s', remove_last_snapshot zfs app R s = (Ok tt, s')
        ∧ ∀ x, x ∈ snaps (world s') ↔
               x ∈ snaps (world s) ∧ ∀ m, m ∈ mounts app → x ≠ backup_n (origin m) R.
Proof.
  assert (∀ (ms : list Mount) (X : gset string),
            store_step (for_each ms (λ mount, remove_mount_last_snapshot zfs mount (name app) R))
                       X (X ∖ list_to_set (map (λ m, backup_n (origin m) R) ms))) as Hloop.
  { induction ms as [|m ms IH]; intros X.
    - simpl. replace (X ∖ ∅) with X by set_solver. apply store_ret.
    - cbn [for_each]. eapply store_seq; [apply remove_mount_last_snapshot_store|].
      replace (X ∖ list_to_set (map (λ m0, backup_n (origin m0) R) (m :: ms)))
        with ((X ∖ {[backup_n (origin m) R]})
              ∖ list_to_set (map (λ m0, backup_n (origin m0) R) ms))
        by (cbn [map list_to_set]; set_solver).
      apply IH. }
  destruct (store_logging_seq INFO ("Removing snapshot past retention for app " +:+ name app)
              _ _ _ (Hloop (mounts app) (snaps (world s))) s eq_refl) as (s' & E & HX).
  exists s'. split; [exact E|]. intros x. rewrite HX, elem_of_difference, elem_of_list_to_set.
  rewrite list_elem_of_In, in_map_iff. split.
  - intros [Hx Hno]. split; [done|]. intros m Hm ->. apply Hno. exists m.
    split; [done | by apply list_elem_of_In].
  - intros [Hx Hno]. split; [done|]. intros (m & <- & Hm%list_elem_of_In). by apply (Hno m).
Qed.
